(** * letras.com scraper: a shallow embedding of [scrap.py]

    The development follows the source file function by function.  Python
    [str] values are sequences of Unicode code points, exceptions are an
    explicit result type, the file system is a finite map from paths to
    contents, and the worker pool of [scrap_songs_threading] is a list of
    futures filled in an arbitrary completion order. *)

From stdpp Require Import gmap list strings.

(** ** Python strings *)

(** A [str] is a sequence of code points. *)
Abbreviation py_str := (list N).

(** The code points of an ASCII literal. *)
Fixpoint lit (x : string) : py_str :=
  match x with
  | EmptyString => []
  | String a x' => Ascii.N_of_ascii a :: lit x'
  end.

Definition SP : N := 32%N.
Definition LF : N := 10%N.

Fixpoint startswith (old s : py_str) : bool :=
  match old, s with
  | [], _ => true
  | _ :: _, [] => false
  | a :: old', b :: s' => (a =? b)%N && startswith old' s'
  end.

(** Left-to-right scan of [str.replace]: [skip] counts the characters of
    the occurrence being replaced that are still to be passed over. *)
Fixpoint replace_scan (old new : py_str) (skip : nat) (s : py_str) : py_str :=
  match s with
  | [] => []
  | c :: s' =>
      match skip with
      | S k => replace_scan old new k s'
      | O =>
          if startswith old s
          then new ++ replace_scan old new (length old - 1) s'
          else c :: replace_scan old new 0 s'
      end
  end.

(** [s.replace(old, new)]: every non-overlapping occurrence, leftmost
    first; an empty [old] matches before every character and at the end. *)
Definition str_replace (s old new : py_str) : py_str :=
  match old with
  | [] => new ++ concat (map (λ c, c :: new) s)
  | _ :: _ => replace_scan old new 0 s
  end.

(** [s[:-2]] *)
Definition slice_to_minus2 (s : py_str) : py_str :=
  take (length s - 2) s.

(** ** The two regular expressions *)

Definition is_upper_AZ (c : N) : bool := ((65 <=? c) && (c <=? 90))%N.

Definition is_ascii_word (c : N) : bool :=
  (((48 <=? c) && (c <=? 57)) || ((65 <=? c) && (c <=? 90))
   || ((97 <=? c) && (c <=? 122)) || (c =? 95))%N.

(** [re.sub(' +', ' ', s)]: [in_run] tells that the previous character
    belonged to the run of spaces already replaced. *)
Fixpoint sub_spaces_from (in_run : bool) (s : py_str) : py_str :=
  match s with
  | [] => []
  | c :: s' =>
      if (c =? SP)%N
      then (if in_run then [] else [SP]) ++ sub_spaces_from true s'
      else c :: sub_spaces_from false s'
  end.

Definition re_sub_spaces (s : py_str) : py_str := sub_spaces_from false s.

(** Two consecutive space characters somewhere in [s]. *)
Fixpoint has_double_space (s : py_str) : bool :=
  match s with
  | c1 :: (c2 :: _) as s' => ((c1 =? SP)%N && (c2 =? SP)%N) || has_double_space s'
  | _ => false
  end.

(** ** Documents, exceptions, records *)

(** A [p] element, through the two observations the code makes of it. *)
Record p_tag := P_tag {
  p_text : py_str;   (* parrafo.text *)
  p_str : py_str     (* str(parrafo) *)
}.

(** A parsed page, through the three queries the code issues. *)
Record soup := Soup {
  (* find_all('li', class_='cnt-list-row'): each item by its attributes *)
  li_cnt_list_row : list (gmap py_str py_str);
  (* find("div", class_="cnt-head_title"), and inside it find("h1").text *)
  div_cnt_head_title : option (option py_str);
  (* find('div', class_='cnt-letra'), by its find_all('p') *)
  div_cnt_letra : option (list p_tag)
}.

Inductive exn :=
  | RequestException                 (* raised by requests.get *)
  | AttributeError (attr : string)   (* 'NoneType' object has no attribute .. *)
  | OSError.                         (* raised by open *)

Inductive result (A : Type) :=
  | Ok (a : A)
  | Raise (e : exn).
Arguments Ok {A} a.
Arguments Raise {A} e.

Global Instance result_ret : MRet result := @Ok.
Global Instance result_bind : MBind result :=
  λ A B f m, match m with Ok a => f a | Raise e => Raise e end.

(** [x.attr] where [x] may be [None]. *)
Definition getattr {A} (x : option A) (attr : string) : result A :=
  match x with
  | Some a => Ok a
  | None => Raise (AttributeError attr)
  end.

(** The dict literal of [get_song_info], in insertion order; a value is
    a [str] or [None]. *)
Abbreviation dict := (list (py_str * option py_str)).

(** [[f(x) for x in l]]: left to right, the first exception ends it. *)
Fixpoint comprehension {A B} (f : A → result B) (l : list A) : result (list B) :=
  match l with
  | [] => Ok []
  | x :: l' => y ← f x; ys ← comprehension f l'; Ok (y :: ys)
  end.

(** The failure classes of the design document: a fetch error is a
    network or HTTP failure, a lookup error an expected markup element or
    attribute that is absent, a serialization error a write failure.
    [classify] files each exception under the class of its cause: the
    attribute access on the [None] of a query that found nothing is the
    lookup error. *)
Inductive error_class := FetchError | LookupError | SerializationError.

Definition classify (e : exn) : error_class :=
  match e with
  | RequestException => FetchError
  | AttributeError _ => LookupError
  | OSError => SerializationError
  end.

(** ** The worker pool *)

(** A future is pending ([None]) or holds what its call returned or raised. *)
Abbreviation future B := (option (result B)).

(** [executor.submit] for every argument. *)
Definition submit_all {A B} (args : list A) : list (future B) :=
  replicate (length args) None.

(** A worker finishes task [i] and stores its outcome in future [i]. *)
Definition complete_task {A B} (fn : A → result B) (args : list A)
    (fs : list (future B)) (i : nat) : list (future B) :=
  match args !! i with
  | Some a => <[i := Some (fn a)]> fs
  | None => fs
  end.

(** Consuming the iterator of [executor.map]: the futures are read in
    submission order; reading a pending one blocks ([None]), reading one
    that raised re-raises. *)
Fixpoint result_iterator {B} (fs : list (future B)) : option (result (list B)) :=
  match fs with
  | [] => Some (Ok [])
  | None :: _ => None
  | Some (Raise e) :: _ => Some (Raise e)
  | Some (Ok r) :: fs' =>
      match result_iterator fs' with
      | None => None
      | Some (Raise e) => Some (Raise e)
      | Some (Ok rs) => Some (Ok (r :: rs))
      end
  end.

(** [[r for r in executor.map(fn, args)]] when the tasks complete in the
    order [sched]. *)
Definition executor_map {A B} (fn : A → result B) (args : list A)
    (sched : list nat) : option (result (list B)) :=
  result_iterator (foldl (complete_task fn args) (submit_all args) sched).

(** ** Sample data

    A small web, an encoder and a Unicode table on which the statements
    below are evaluated. *)

(** The alphanumeric code points of Latin-1 above ASCII. *)
Definition latin1_isalnum (c : N) : bool :=
  ((c =? 170) || (c =? 178) || (c =? 179) || (c =? 181) || (c =? 185) || (c =? 186)
   || ((188 <=? c) && (c <=? 190))
   || ((192 <=? c) && (c <=? 255) && negb (c =? 215) && negb (c =? 247)))%N.

(** The encoder of [json.dump] on a list of flat dicts, with an indent. *)
Definition hex_digit (n : N) : N :=
  if (n <? 10)%N then (48 + n)%N else (87 + n)%N.

Definition json_u_escape (c : N) : py_str :=
  [92%N; 117%N; hex_digit ((c / 4096) mod 16)%N; hex_digit ((c / 256) mod 16)%N;
   hex_digit ((c / 16) mod 16)%N; hex_digit (c mod 16)%N].

Definition json_escape (c : N) : py_str :=
  if (c =? 34)%N then [92%N; 34%N]
  else if (c =? 92)%N then [92%N; 92%N]
  else if (c =? 10)%N then [92%N; 110%N]
  else if (c =? 13)%N then [92%N; 114%N]
  else if (c =? 9)%N then [92%N; 116%N]
  else if (c =? 8)%N then [92%N; 98%N]
  else if (c =? 12)%N then [92%N; 102%N]
  else if ((32 <=? c) && (c <=? 126))%N then [c]
  else if (c <? 65536)%N then json_u_escape c
  else json_u_escape (55296 + (c - 65536) / 1024)%N
         ++ json_u_escape (56320 + (c - 65536) mod 1024)%N.

Definition json_str (s : py_str) : py_str :=
  [34%N] ++ concat (map json_escape s) ++ [34%N].

Definition json_value (v : option py_str) : py_str :=
  match v with
  | None => lit "null"
  | Some s => json_str s
  end.

Fixpoint json_join (sep : py_str) (items : list py_str) : py_str :=
  match items with
  | [] => []
  | [x] => x
  | x :: items' => x ++ sep ++ json_join sep items'
  end.

Definition json_block (opening closing : py_str) (indent level : nat)
    (items : list py_str) : py_str :=
  match items with
  | [] => opening ++ closing
  | _ :: _ =>
      opening ++ [LF] ++ replicate (indent * S level) SP
        ++ json_join (lit "," ++ [LF] ++ replicate (indent * S level) SP) items
        ++ [LF] ++ replicate (indent * level) SP ++ closing
  end.

Definition json_dumps (value : list dict) (indent : nat) : py_str :=
  json_block (lit "[") (lit "]") indent 0
    (map (λ d : dict,
            json_block (lit "{") (lit "}") indent 1
              (map (λ kv, json_str kv.1 ++ lit ": " ++ json_value kv.2) d))
         value).

Definition sample_artist : py_str := lit "https://www.letras.com/sample/".
Definition sample_one : py_str := lit "https://www.letras.com/sample/one/".
Definition sample_two : py_str := lit "https://www.letras.com/sample/two/".
Definition gaps_artist : py_str := lit "https://www.letras.com/gaps/".
Definition untitled_song : py_str := lit "https://www.letras.com/gaps/untitled/".

(** The fragment of two paragraphs with a line break in the first. *)
Definition two_paragraphs : list p_tag :=
  [P_tag (lit "Line onecont.") (lit "<p>Line one<br>cont.</p>");
   P_tag (lit "Line two") (lit "<p>Line two</p>")].

Definition sample_web (url : option py_str) : result soup :=
  match url with
  | None => Raise RequestException
  | Some u =>
      if decide (u = sample_artist ++ lit "mais_acessadas.html") then
        Ok (Soup [ {[ lit "data-shareurl" := sample_one ]};
                   {[ lit "data-shareurl" := sample_two ]} ] None None)
      else if decide (u = sample_one) then
        Ok (Soup [] (Some (Some (lit "One"))) (Some two_paragraphs))
      else if decide (u = sample_two) then
        Ok (Soup [] (Some (Some (lit "Two")))
              (Some [P_tag (lit "HelloWorld") (lit "<p>Hello<br/>World</p>")]))
      else if decide (u = gaps_artist ++ lit "mais_acessadas.html") then
        Ok (Soup [ {[ lit "data-shareurl" := sample_one ]};
                   {[ lit "data-id" := lit "7" ]};
                   {[ lit "data-shareurl" := untitled_song ]} ] None None)
      else if decide (u = untitled_song) then
        Ok (Soup [] None (Some two_paragraphs))
      else Raise RequestException
  end.

(** A web whose every page has no catalog row, heading or lyrics. *)
Definition empty_web (url : option py_str) : result soup := Ok (Soup [] None None).

(** The files before the export: an earlier output is there. *)
Definition sample_files : gmap py_str py_str := {[ lit "out.json" := lit "[]" ]}.

(** ** The scraper *)

Section Scrap.
(** The Unicode alphanumeric table that [\w] consults outside ASCII. *)
Variable unicode_isalnum : N → bool.
(** [bs(requests.get(url).content, 'html.parser')] *)
Variable requests_get : option py_str → result soup.
(** The text [json.dump(value, fp, indent=indent)] writes. *)
Variable json_dump : list dict → nat → py_str.
(** Whether [open(path, "w")] succeeds. *)
Variable writable : py_str → bool.

(** [\w] on a [str] pattern. *)
Definition is_word (c : N) : bool :=
  if (c <? 128)%N then is_ascii_word c else unicode_isalnum c.

(** [\B] between the previous character (none at the start of the
    text) and the next one. *)
Definition not_boundary (prev : option N) (c : N) : bool :=
  bool_decide (from_option is_word false prev = is_word c).

(** [re.sub(r"\B([A-Z])", r" \1", s)], scanning with the character
    before the current position. *)
Fixpoint sub_B_upper_from (prev : option N) (s : py_str) : py_str :=
  match s with
  | [] => []
  | c :: s' =>
      (if is_upper_AZ c && not_boundary prev c then [SP; c] else [c])
        ++ sub_B_upper_from (Some c) s'
  end.

Definition re_sub_B_upper (s : py_str) : py_str := sub_B_upper_from None s.

(** A letter of [A-Z] right after a word character somewhere in [s],
    [prev] being the character before [s]. *)
Fixpoint camel_from (prev : option N) (s : py_str) : bool :=
  match s with
  | [] => false
  | c :: s' =>
      (from_option is_word false prev && is_upper_AZ c) || camel_from (Some c) s'
  end.

Definition get_songs_list (artist_url : py_str) : result (list (option py_str)) :=
  let url := artist_url ++ lit "mais_acessadas.html" in
  soup ← requests_get (Some url);
  let songs_items := li_cnt_list_row soup in
  let songs_urls := map (λ song : gmap py_str py_str, song !! lit "data-shareurl") songs_items in
  Ok songs_urls.

(** The body of the [breaklines] loop: the text added for one paragraph. *)
Definition breaklines_text (parrafo : p_tag) : py_str :=
  let text := p_str parrafo in
  let text := str_replace text (lit "<br>") [LF] in
  let text := str_replace text (lit "<br/>") [LF] in
  let text := str_replace text (lit "</br>") [] in
  let text := str_replace text (lit "<p>") [] in
  let text := str_replace text (lit "</p>") [LF] in
  text.

Definition get_lyrics_from_url (song_url : option py_str) (breaklines : bool)
    : result py_str :=
  song ← requests_get song_url;
  let lyric_div := div_cnt_letra song in
  parrafos ← getattr lyric_div "find_all";
  let lyric := [] in
  if breaklines then
    let lyric :=
      foldl (λ lyric parrafo, lyric ++ (breaklines_text parrafo ++ [LF]))
        lyric parrafos in
    Ok (slice_to_minus2 lyric)
  else
    let lyric :=
      foldl (λ lyric parrafo,
               let lyric := lyric ++ (re_sub_B_upper (p_text parrafo) ++ [SP]) in
               let lyric := re_sub_spaces lyric in
               lyric ++ [SP])
        lyric parrafos in
    Ok lyric.

Definition get_lyrics_from_div (div : option (list p_tag)) (breaklines : bool)
    : result py_str :=
  parrafos ← getattr div "find_all";
  let lyric := [] in
  if breaklines then
    let lyric :=
      foldl (λ lyric parrafo, lyric ++ (breaklines_text parrafo ++ [LF]))
        lyric parrafos in
    Ok (slice_to_minus2 lyric)
  else
    let lyric :=
      foldl (λ lyric parrafo,
               let lyric := lyric ++ (re_sub_B_upper (p_text parrafo) ++ [SP]) in
               re_sub_spaces lyric)
        lyric parrafos in
    Ok lyric.

Definition get_song_info (song_url : option py_str) : result dict :=
  song ← requests_get song_url;
  head ← getattr (div_cnt_head_title song) "find";
  song_name ← getattr head "text";
  let lyric_div := div_cnt_letra song in
  lyrics ← get_lyrics_from_div lyric_div false;
  Ok [(lit "name", Some song_name);
      (lit "lyrics", Some lyrics);
      (lit "url", song_url)].

Definition get_artist_songs (artist_url : py_str) : result (list dict) :=
  urls ← get_songs_list artist_url;
  comprehension get_song_info urls.

(** [with open(f"{output_name}.json", "w") as fp: json.dump(songs_info, fp, indent=4)] *)
Definition open_w_json_dump (output_name : py_str) (songs_info : list dict)
    (files : gmap py_str py_str) : result unit * gmap py_str py_str :=
  let path := output_name ++ lit ".json" in
  if writable path
  then (Ok (), <[path := json_dump songs_info 4]> files)
  else (Raise OSError, files).

Definition scrap_songs_concurrently (artist_url output_name : py_str)
    (files : gmap py_str py_str) : result nat * gmap py_str py_str :=
  match get_songs_list artist_url with
  | Raise e => (Raise e, files)
  | Ok songs_urls =>
      match comprehension get_song_info songs_urls with
      | Raise e => (Raise e, files)
      | Ok songs_info =>
          match open_w_json_dump output_name songs_info files with
          | (Raise e, files') => (Raise e, files')
          | (Ok _, files') => (Ok (length songs_info), files')
          end
      end
  end.

(** [sched] is the order in which the pool's tasks complete; the
    result is [None] when the main thread waits for ever. *)
Definition scrap_songs_threading (sched : list nat) (artist_url output_name : py_str)
    (files : gmap py_str py_str) : option (result nat * gmap py_str py_str) :=
  match get_songs_list artist_url with
  | Raise e => Some (Raise e, files)
  | Ok songs_urls =>
      match executor_map get_song_info songs_urls sched with
      | None => None
      | Some (Raise e) => Some (Raise e, files)
      | Some (Ok songs_info) =>
          match open_w_json_dump output_name songs_info files with
          | (Raise e, files') => Some (Raise e, files')
          | (Ok _, files') => Some (Ok (length songs_info), files')
          end
      end
  end.

(** ** Facts about the string operations *)

Lemma has_double_space_lookup (s : py_str) (i : nat) :
  has_double_space s = false →
  s !! i = Some SP → s !! S i = Some SP → False.
Proof.
  revert i. induction s as [|c1 s IH]; intros i Hs H1 H2; [done|].
  destruct s as [|c2 s]; [done|].
  simpl in Hs. apply orb_false_iff in Hs as [Hc Hs].
  destruct i as [|i].
  - simpl in H1, H2. by simplify_eq.
  - apply (IH i Hs); done.
Qed.

Lemma has_double_space_cons (c : N) (s : py_str) :
  has_double_space (c :: s)
  = ((c =? SP)%N && bool_decide (head s = Some SP)) || has_double_space s.
Proof.
  destruct s as [|c2 s]; simpl.
  - by rewrite andb_false_r.
  - destruct (N.eqb_spec c2 SP) as [->|Hc2].
    + by rewrite bool_decide_eq_true_2.
    + rewrite bool_decide_eq_false_2; [done|congruence].
Qed.

Lemma has_double_space_app_SP_SP (z : py_str) :
  has_double_space (z ++ [SP; SP]) = true.
Proof.
  induction z as [|c z IH]; [done|].
  change ((c :: z) ++ [SP; SP]) with (c :: (z ++ [SP; SP])).
  rewrite has_double_space_cons, IH. apply orb_true_r.
Qed.

(** After a replaced run the output never resumes with a space. *)
Lemma sub_spaces_from_true_head (s : py_str) :
  head (sub_spaces_from true s) ≠ Some SP.
Proof.
  induction s as [|c s IH]; [done|]. simpl.
  destruct (N.eqb_spec c SP) as [->|Hc]; [done|].
  simpl. congruence.
Qed.

Lemma sub_spaces_from_no_double (b : bool) (s : py_str) :
  has_double_space (sub_spaces_from b s) = false.
Proof.
  revert b. induction s as [|c s IH]; intros b; [done|].
  cbn [sub_spaces_from].
  destruct (N.eqb_spec c SP) as [->|Hc].
  - destruct b; [apply IH|].
    change (has_double_space (SP :: sub_spaces_from true s) = false).
    rewrite has_double_space_cons, IH, orb_false_r.
    rewrite bool_decide_eq_false_2; [done|].
    apply sub_spaces_from_true_head.
  - rewrite has_double_space_cons, IH, orb_false_r.
    apply andb_false_iff. left. by apply N.eqb_neq.
Qed.

(** Substituting in an already substituted prefix changes nothing. *)
Lemma sub_spaces_from_absorb (b : bool) (a x : py_str) :
  sub_spaces_from b (sub_spaces_from b a ++ x) = sub_spaces_from b (a ++ x).
Proof.
  revert b. induction a as [|c a IH]; intros b; [done|]. simpl.
  destruct (N.eqb_spec c SP) as [->|Hc].
  - destruct b; simpl; [apply IH|]. by rewrite IH.
  - simpl. destruct (N.eqb_spec c SP); [done|]. by rewrite IH.
Qed.

(** A text that ends with a space still does after the substitution. *)
Lemma sub_spaces_from_snoc_SP (b : bool) (a : py_str) :
  (b = true ∧ sub_spaces_from b (a ++ [SP]) = [])
  ∨ ∃ z, sub_spaces_from b (a ++ [SP]) = z ++ [SP].
Proof.
  revert b. induction a as [|c a IH]; intros b.
  - destruct b; [by left|]. right. by exists [].
  - simpl. destruct (N.eqb_spec c SP) as [->|Hc].
    + destruct (IH true) as [[_ ->]|[z ->]].
      * destruct b; [by left|]. right. by exists [].
      * right. exists ((if b then [] else [SP]) ++ z). by rewrite app_assoc.
    + right. destruct (IH false) as [[? _]|[z ->]]; [done|].
      by exists (c :: z).
Qed.

Lemma re_sub_spaces_snoc_SP (a : py_str) :
  ∃ z, re_sub_spaces (a ++ [SP]) = z ++ [SP].
Proof.
  destruct (sub_spaces_from_snoc_SP false a) as [[? _]|H]; done.
Qed.

(** A second space after a space is absorbed into the same run. *)
Lemma sub_spaces_from_SP_SP (b : bool) (z y : py_str) :
  sub_spaces_from b ((z ++ [SP]) ++ [SP] ++ y) = sub_spaces_from b ((z ++ [SP]) ++ y).
Proof.
  revert b. induction z as [|c z IH]; intros b; [done|]. simpl.
  destruct (N.eqb_spec c SP); by rewrite IH.
Qed.

Lemma startswith_app (old rest : py_str) : startswith old (old ++ rest) = true.
Proof.
  induction old as [|a old IH]; [done|]. simpl. by rewrite N.eqb_refl, IH.
Qed.

Lemma replace_scan_skip (old new x rest : py_str) :
  replace_scan old new (length x) (x ++ rest) = replace_scan old new 0 rest.
Proof.
  induction x as [|c x IH]; [done|]. simpl. apply IH.
Qed.

(** The leftmost occurrence of [old] is replaced, and the replacement
    goes on after it. *)
Lemma str_replace_leftmost (old new pre rest : py_str) :
  old ≠ [] →
  (∀ i : nat, i < length pre → startswith old (drop i (pre ++ old ++ rest)) = false) →
  str_replace (pre ++ old ++ rest) old new = pre ++ new ++ str_replace rest old new.
Proof.
  destruct old as [|a old]; [done|]. intros _. unfold str_replace.
  induction pre as [|c pre IH]; intros Hpre.
  - change ([] ++ (a :: old) ++ rest) with (a :: (old ++ rest)).
    cbn [replace_scan].
    change (a :: (old ++ rest)) with ((a :: old) ++ rest) at 1.
    rewrite startswith_app. simpl. f_equal.
    rewrite Nat.sub_0_r. apply replace_scan_skip.
  - change ((c :: pre) ++ (a :: old) ++ rest) with (c :: (pre ++ (a :: old) ++ rest)).
    cbn [replace_scan].
    assert (startswith (a :: old) (c :: (pre ++ (a :: old) ++ rest)) = false) as ->.
    { apply (Hpre 0). simpl. lia. }
    cbn [app]. f_equal. apply IH.
    intros i Hi. apply (Hpre (S i)). simpl. lia.
Qed.

(** Without an occurrence of [old] the string is returned as it is. *)
Lemma str_replace_absent (old new s : py_str) :
  old ≠ [] →
  (∀ i : nat, startswith old (drop i s) = false) →
  str_replace s old new = s.
Proof.
  destruct old as [|a old]; [done|]. intros _. unfold str_replace.
  induction s as [|c s IH]; intros Hs; [done|].
  cbn [replace_scan].
  assert (startswith (a :: old) (c :: s) = false) as -> by apply (Hs 0).
  f_equal. apply IH. intros i. apply (Hs (S i)).
Qed.

Lemma slice_to_minus2_length (s : py_str) :
  length (slice_to_minus2 s) = length s - 2.
Proof. unfold slice_to_minus2. rewrite length_take. lia. Qed.

Lemma slice_to_minus2_app (s : py_str) (c1 c2 : N) :
  slice_to_minus2 (s ++ [c1; c2]) = s.
Proof.
  unfold slice_to_minus2. rewrite length_app. simpl.
  replace (length s + 2 - 2) with (length s) by lia.
  by rewrite take_app_length.
Qed.

Lemma foldl_app_concat {A} (g : A → py_str) (acc : py_str) (l : list A) :
  foldl (λ lyric x, lyric ++ g x) acc l = acc ++ concat (map g l).
Proof.
  revert acc. induction l as [|x l IH]; intros acc; simpl.
  - by rewrite app_nil_r.
  - by rewrite IH, app_assoc.
Qed.

(** ** Facts about the flattened loops *)

(** Substituting after every paragraph is substituting once at the end. *)
Lemma foldl_sub_spaces {A} (g : A → py_str) (l : list A) :
  foldl (λ lyric x, re_sub_spaces (lyric ++ g x)) [] l
  = re_sub_spaces (concat (map g l)).
Proof.
  induction l as [|x l IH] using rev_ind; [done|].
  rewrite foldl_app, map_app, concat_app. simpl.
  rewrite IH, app_nil_r. apply sub_spaces_from_absorb.
Qed.

Lemma foldl_sub_spaces_ends_SP {A} (g : A → py_str) (l : list A) :
  l ≠ [] →
  ∃ z, foldl (λ lyric x, re_sub_spaces (lyric ++ (g x ++ [SP]))) [] l = z ++ [SP].
Proof.
  destruct l as [|x l _] using rev_ind; [done|]. intros _.
  rewrite foldl_app. simpl. rewrite app_assoc. apply re_sub_spaces_snoc_SP.
Qed.

(** The loop of [get_lyrics_from_url] against that of [get_lyrics_from_div]. *)
Lemma foldl_sub_spaces_extra_SP {A} (g : A → py_str) (l : list A) :
  l ≠ [] →
  foldl (λ lyric x, re_sub_spaces (lyric ++ (g x ++ [SP])) ++ [SP]) [] l
  = foldl (λ lyric x, re_sub_spaces (lyric ++ (g x ++ [SP]))) [] l ++ [SP].
Proof.
  induction l as [|x l IH] using rev_ind; [done|]. intros _.
  rewrite !foldl_app. simpl.
  destruct (decide (l = [])) as [->|Hl]; [done|].
  rewrite (IH Hl).
  destruct (foldl_sub_spaces_ends_SP g l Hl) as [z ->].
  f_equal. unfold re_sub_spaces.
  rewrite <- (app_assoc (z ++ [SP]) [SP]).
  apply sub_spaces_from_SP_SP.
Qed.

Lemma is_upper_AZ_is_word (c : N) : is_upper_AZ c = true → is_word c = true.
Proof.
  unfold is_upper_AZ, is_word, is_ascii_word. intros [H1 H2]%andb_true_iff.
  apply N.leb_le in H1. apply N.leb_le in H2.
  destruct (N.ltb_spec c 128) as [_|?]; [|lia].
  rewrite (proj2 (N.leb_le 65 c) H1), (proj2 (N.leb_le c 90) H2).
  simpl. by rewrite orb_true_r.
Qed.

(** Every character stays, in order; a space comes before exactly the
    letters of [A-Z] whose predecessor is a word character. *)
Lemma sub_B_upper_from_zip (prev : option N) (s : py_str) :
  sub_B_upper_from prev s
  = concat (zip_with
              (λ p c, if is_upper_AZ c && from_option is_word false p
                      then [SP; c] else [c])
              (prev :: map Some s) s).
Proof.
  revert prev. induction s as [|c s IH]; intros prev; [done|].
  cbn [sub_B_upper_from map zip_with concat]. rewrite IH. f_equal.
  destruct (is_upper_AZ c) eqn:Hu; [|done]. cbn [andb].
  unfold not_boundary. rewrite (is_upper_AZ_is_word c Hu).
  destruct (from_option is_word false prev); done.
Qed.

(** ** Facts about comprehensions and the pool *)

Lemma comprehension_Forall2 {A B} (f : A → result B) (l : list A) (rs : list B) :
  comprehension f l = Ok rs ↔ Forall2 (λ x r, f x = Ok r) l rs.
Proof.
  revert rs. induction l as [|x l IH]; intros rs; simpl.
  - split; [intros [= <-]; constructor|by intros ->%Forall2_nil_inv_l].
  - unfold mbind, result_bind. split.
    + destruct (f x) as [y|e] eqn:Hx; [|done].
      destruct (comprehension f l) as [ys|e] eqn:Hl; [|done].
      intros [= <-]. constructor; [done|]. by apply IH.
    + intros (y & ys & Hy & Hys & ->)%Forall2_cons_inv_l.
      rewrite Hy. apply IH in Hys. by rewrite Hys.
Qed.

Lemma comprehension_ok {A B} (f : A → result B) (l : list A) :
  (∀ x, x ∈ l → ∃ r, f x = Ok r) → ∃ rs, comprehension f l = Ok rs.
Proof.
  induction l as [|x l IH]; intros H; [by exists []|].
  destruct (H x) as [y Hy]; [by left|].
  destruct IH as [ys Hys]; [intros; apply H; by right|].
  exists (y :: ys). simpl. unfold mbind, result_bind. by rewrite Hy, Hys.
Qed.

Lemma comprehension_raise {A B} (f : A → result B) (l : list A) (x : A) (e : exn) :
  x ∈ l → f x = Raise e → ∃ e', comprehension f l = Raise e'.
Proof.
  intros Hin Hx. destruct (comprehension f l) as [rs|e'] eqn:Hl; [|by eexists].
  apply comprehension_Forall2 in Hl.
  apply list_elem_of_lookup in Hin as [i Hi].
  destruct (Forall2_lookup_l _ _ _ _ _ Hl Hi) as (r & _ & Hr). congruence.
Qed.

Section Pool.
Context {A B : Type} (fn : A → result B) (args : list A).

Lemma complete_task_length (fs : list (future B)) (i : nat) :
  length (complete_task fn args fs i) = length fs.
Proof.
  unfold complete_task. destruct (args !! i); [apply length_insert|done].
Qed.

Lemma foldl_complete_task_length (sched : list nat) (fs : list (future B)) :
  length (foldl (complete_task fn args) fs sched) = length fs.
Proof.
  revert fs. induction sched as [|j sched IH]; intros fs; [done|].
  simpl. by rewrite IH, complete_task_length.
Qed.

(** A finished future keeps its outcome. *)
Lemma foldl_complete_task_stable (sched : list nat) (fs : list (future B))
    (i : nat) (a : A) :
  args !! i = Some a → fs !! i = Some (Some (fn a)) →
  foldl (complete_task fn args) fs sched !! i = Some (Some (fn a)).
Proof.
  revert fs. induction sched as [|j sched IH]; intros fs Ha Hfs; [done|].
  simpl. apply IH; [done|]. unfold complete_task.
  destruct (args !! j) as [a'|] eqn:Hj; [|done].
  destruct (decide (j = i)) as [->|Hne].
  - rewrite list_lookup_insert_eq; [congruence|by eapply lookup_lt_Some].
  - by rewrite list_lookup_insert_ne.
Qed.

(** Every scheduled task ends in its own future, whatever the order. *)
Lemma foldl_complete_task_done (sched : list nat) (fs : list (future B))
    (i : nat) (a : A) :
  length fs = length args → i ∈ sched → args !! i = Some a →
  foldl (complete_task fn args) fs sched !! i = Some (Some (fn a)).
Proof.
  revert fs. induction sched as [|j sched IH]; intros fs Hlen Hin Ha.
  - by apply elem_of_nil in Hin.
  - simpl. destruct (decide (i = j)) as [<-|Hne].
    + apply foldl_complete_task_stable; [done|].
      unfold complete_task. rewrite Ha.
      apply list_lookup_insert_eq. rewrite Hlen. by eapply lookup_lt_Some.
    + apply IH; [by rewrite complete_task_length| |done].
      apply elem_of_cons in Hin as [?|?]; done.
Qed.

Lemma result_iterator_all_done :
  result_iterator (map (λ a, Some (fn a)) args) = Some (comprehension fn args).
Proof.
  induction args as [|a l IH]; [done|]. simpl. rewrite IH.
  unfold mbind, result_bind. destruct (fn a); [|done].
  by destruct (comprehension fn l).
Qed.

(** The pool returns what the comprehension returns as soon as the
    schedule lets every task complete. *)
Lemma executor_map_comprehension (sched : list nat) :
  (∀ i, i < length args → i ∈ sched) →
  executor_map fn args sched = Some (comprehension fn args).
Proof.
  intros Hcover. unfold executor_map.
  rewrite <- result_iterator_all_done. f_equal.
  apply list_eq. intros i. rewrite list_lookup_fmap.
  destruct (args !! i) as [a|] eqn:Ha; simpl.
  - apply foldl_complete_task_done; [apply length_replicate| |done].
    apply Hcover. by eapply lookup_lt_Some.
  - apply lookup_ge_None. rewrite foldl_complete_task_length.
    unfold submit_all. rewrite length_replicate. by apply lookup_ge_None.
Qed.

Lemma executor_map_permutation (sched : list nat) :
  sched ≡ₚ seq 0 (length args) →
  executor_map fn args sched = Some (comprehension fn args).
Proof.
  intros Hperm. apply executor_map_comprehension. intros i Hi.
  rewrite Hperm. apply elem_of_seq. lia.
Qed.
End Pool.

(** ** The flattened mode *)

(** The string [get_lyrics_from_div] returns in flattened mode has no
    two consecutive spaces. *)
Lemma get_lyrics_from_div_no_double_space (parrafos : list p_tag) (lyric : py_str) :
  get_lyrics_from_div (Some parrafos) false = Ok lyric →
  has_double_space lyric = false
  ∧ ∀ i : nat, ¬ (lyric !! i = Some SP ∧ lyric !! S i = Some SP).
Proof.
  intros [= <-].
  rewrite (foldl_sub_spaces (λ p, re_sub_B_upper (p_text p) ++ [SP])).
  pose proof (sub_spaces_from_no_double false
                (concat (map (λ p, re_sub_B_upper (p_text p) ++ [SP]) parrafos)))
    as Hno.
  split; [done|]. intros i [H1 H2]. exact (has_double_space_lookup _ i Hno H1 H2).
Qed.

(** C7, as the code has it: the letters that get a space are those of
    [A-Z] only.  In flattened mode [get_lyrics_from_div] returns the
    concatenation, with every run of spaces replaced by one space, of
    the paragraphs' texts, each followed by a space and each with a
    space inserted before exactly the letters of [A-Z] that follow a
    word character; the paragraph text HelloWorld gives Hello World
    followed by one space. *)
Theorem flattened_camel_split (parrafos : list p_tag) :
  get_lyrics_from_div (Some parrafos) false
  = Ok (re_sub_spaces
          (concat (map (λ p, re_sub_B_upper (p_text p) ++ [SP]) parrafos)))
  ∧ (∀ text : py_str,
       re_sub_B_upper text
       = concat (zip_with
                   (λ prev c, if is_upper_AZ c && from_option is_word false prev
                              then [SP; c] else [c])
                   (None :: map Some text) text))
  ∧ (∀ s : py_str, has_double_space (re_sub_spaces s) = false)
  ∧ (∀ markup : py_str,
       get_lyrics_from_div (Some [P_tag (lit "HelloWorld") markup]) false
       = Ok (lit "Hello World ")).
Proof.
  split_and!.
  - unfold get_lyrics_from_div. simpl. f_equal.
    apply (foldl_sub_spaces (λ p, re_sub_B_upper (p_text p) ++ [SP])).
  - intros text. apply sub_B_upper_from_zip.
  - intros s. apply sub_spaces_from_no_double.
  - intros markup. reflexivity.
Qed.

(** C10: on a page whose lyrics container has at least one paragraph,
    [get_lyrics_from_url] in flattened mode returns the string of
    [get_lyrics_from_div] on the same paragraphs with one more space at
    the end, so the two differ and the former ends with two spaces;
    [get_song_info] stores the string of [get_lyrics_from_div]. *)
Theorem url_variant_extra_space (song_url : option py_str) (song : soup)
    (parrafos : list p_tag) :
  requests_get song_url = Ok song →
  div_cnt_letra song = Some parrafos →
  parrafos ≠ [] →
  ∃ lyric,
    get_lyrics_from_div (Some parrafos) false = Ok lyric
    ∧ get_lyrics_from_url song_url false = Ok (lyric ++ [SP])
    ∧ (∃ z, lyric ++ [SP] = z ++ [SP; SP])
    ∧ has_double_space (lyric ++ [SP]) = true
    ∧ has_double_space lyric = false
    ∧ get_lyrics_from_url song_url false ≠ get_lyrics_from_div (Some parrafos) false
    ∧ (∀ info, get_song_info song_url = Ok info →
               info !! 1 = Some (lit "lyrics", Some lyric)).
Proof.
  intros Hget Hdiv Hne.
  exists (foldl (λ lyric p,
                   re_sub_spaces (lyric ++ (re_sub_B_upper (p_text p) ++ [SP])))
            [] parrafos).
  split; [reflexivity|].
  assert (get_lyrics_from_url song_url false
          = Ok (foldl (λ lyric p,
                         re_sub_spaces (lyric ++ (re_sub_B_upper (p_text p) ++ [SP])))
                  [] parrafos ++ [SP])) as Hurl.
  { unfold get_lyrics_from_url. rewrite Hget. simpl. rewrite Hdiv. simpl.
    f_equal.
    apply (foldl_sub_spaces_extra_SP (λ p, re_sub_B_upper (p_text p)) _ Hne). }
  split_and!.
  - exact Hurl.
  - destruct (foldl_sub_spaces_ends_SP (λ p, re_sub_B_upper (p_text p)) _ Hne)
      as [z Hz].
    exists z. rewrite Hz. by rewrite <- app_assoc.
  - destruct (foldl_sub_spaces_ends_SP (λ p, re_sub_B_upper (p_text p)) _ Hne)
      as [z Hz].
    rewrite Hz, <- app_assoc. apply has_double_space_app_SP_SP.
  - by apply (get_lyrics_from_div_no_double_space parrafos).
  - rewrite Hurl. simpl. intros [= Heq].
    apply (f_equal length) in Heq. rewrite length_app in Heq. simpl in Heq. lia.
  - intros info. unfold get_song_info. rewrite Hget. simpl. rewrite Hdiv.
    destruct (div_cnt_head_title song) as [[name|]|]; simpl; [|done|done].
    by intros [= <-].
Qed.

(** ** The line-preserving mode *)

(** C5, as the code has it: with [breaklines] the result is the
    concatenation of the paragraphs' markups, each with its line-break
    markers replaced by a newline, its opening markers removed, its
    closing markers replaced by a newline and one more newline added,
    without its last two characters, whatever they are (a replacement
    rewrites the leftmost occurrence and goes on after it, and changes
    nothing where there is none); the fragment of
    the two paragraphs Line one, break, cont. and Line two gives the
    two lines, an empty line and Line two, with no newline at its
    end: the concatenation ends with two newlines, and both are removed. *)
Theorem breaklines_fixed_trim (parrafos : list p_tag) :
  let whole := concat (map (λ p, breaklines_text p ++ [LF]) parrafos) in
  get_lyrics_from_div (Some parrafos) true = Ok (take (length whole - 2) whole)
  ∧ (∀ (s : py_str) (c1 c2 : N), slice_to_minus2 (s ++ [c1; c2]) = s)
  ∧ (∀ old new pre rest : py_str,
       old ≠ [] →
       (∀ i : nat, i < length pre →
                   startswith old (drop i (pre ++ old ++ rest)) = false) →
       str_replace (pre ++ old ++ rest) old new
       = pre ++ new ++ str_replace rest old new)
  ∧ (∀ old new s : py_str,
       old ≠ [] →
       (∀ i : nat, startswith old (drop i s) = false) →
       str_replace s old new = s)
  ∧ (∀ text markup : py_str,
       breaklines_text (P_tag text markup)
       = str_replace
           (str_replace
              (str_replace
                 (str_replace (str_replace markup (lit "<br>") [LF]) (lit "<br/>") [LF])
                 (lit "</br>") [])
              (lit "<p>") [])
           (lit "</p>") [LF])
  ∧ concat (map (λ p, breaklines_text p ++ [LF]) two_paragraphs)
    = lit "Line one" ++ [LF] ++ lit "cont." ++ [LF; LF] ++ lit "Line two" ++ [LF; LF]
  ∧ get_lyrics_from_div (Some two_paragraphs) true
    = Ok (lit "Line one" ++ [LF] ++ lit "cont." ++ [LF; LF] ++ lit "Line two").
Proof.
  intros whole. split_and!.
  - unfold get_lyrics_from_div. simpl. f_equal. unfold slice_to_minus2.
    by rewrite (foldl_app_concat (λ p, breaklines_text p ++ [LF])).
  - apply slice_to_minus2_app.
  - apply str_replace_leftmost.
  - apply str_replace_absent.
  - reflexivity.
  - reflexivity.
  - reflexivity.
Qed.

(** C9: a container without paragraphs gives the empty string in both
    modes, the slice of the empty string being the empty string (the
    slice is defined on every string, two characters shorter or empty),
    and no fragment makes either mode raise. *)
Theorem empty_fragment :
  get_lyrics_from_div (Some []) false = Ok []
  ∧ get_lyrics_from_div (Some []) true = Ok []
  ∧ slice_to_minus2 [] = []
  ∧ (∀ s : py_str, length (slice_to_minus2 s) = length s - 2)
  ∧ (∀ (parrafos : list p_tag) (breaklines : bool),
       ∃ lyric, get_lyrics_from_div (Some parrafos) breaklines = Ok lyric).
Proof.
  split_and!; try reflexivity.
  - apply slice_to_minus2_length.
  - intros parrafos [|]; eexists; reflexivity.
Qed.

(** ** The pipeline *)

Lemma get_song_info_Ok_inv (song_url : option py_str) (info : dict) :
  get_song_info song_url = Ok info →
  ∃ song song_name lyrics,
    requests_get song_url = Ok song
    ∧ div_cnt_head_title song = Some (Some song_name)
    ∧ get_lyrics_from_div (div_cnt_letra song) false = Ok lyrics
    ∧ info = [(lit "name", Some song_name); (lit "lyrics", Some lyrics);
              (lit "url", song_url)].
Proof.
  unfold get_song_info.
  destruct (requests_get song_url) as [song|e] eqn:Hget; [|done]. simpl.
  destruct (div_cnt_head_title song) as [[song_name|]|] eqn:Hhead; [|done|done].
  simpl.
  destruct (get_lyrics_from_div (div_cnt_letra song) false) as [lyrics|e] eqn:Hlyr;
    [|done].
  simpl. intros [= <-]. by exists song, song_name, lyrics.
Qed.

(** C8: when the listing page is fetched, [get_songs_list] returns one
    entry per catalog row, in document order, each entry being the
    row's [data-shareurl] attribute, or [None] at the rows that have
    none; a missing attribute raises nothing. *)
Theorem get_songs_list_placeholders (artist_url : py_str) (page : soup) :
  requests_get (Some (artist_url ++ lit "mais_acessadas.html")) = Ok page →
  ∃ songs_urls,
    get_songs_list artist_url = Ok songs_urls
    ∧ length songs_urls = length (li_cnt_list_row page)
    ∧ (∀ (i : nat) (item : gmap py_str py_str),
         li_cnt_list_row page !! i = Some item →
         songs_urls !! i = Some (item !! lit "data-shareurl"))
    ∧ (∀ (i : nat) (item : gmap py_str py_str),
         li_cnt_list_row page !! i = Some item →
         item !! lit "data-shareurl" = None →
         songs_urls !! i = Some None).
Proof.
  intros Hget. unfold get_songs_list. rewrite Hget. simpl.
  eexists. split; [reflexivity|]. split_and!.
  - apply length_map.
  - intros i item Hi. by rewrite list_lookup_fmap, Hi.
  - intros i item Hi Hnone. by rewrite list_lookup_fmap, Hi, <- Hnone.
Qed.

(** C6: on a fetched page without the heading container, without the
    heading inside it, or without the lyrics container,
    [get_song_info] raises the error of an attribute access on an
    element that was not found, a lookup error in the classes of the
    design; no record is returned, and a comprehension over a list
    that holds this URL raises too. *)
Theorem get_song_info_lookup_error (song_url : option py_str) (song : soup) :
  requests_get song_url = Ok song →
  div_cnt_head_title song = None
  ∨ div_cnt_head_title song = Some None
  ∨ div_cnt_letra song = None →
  ∃ attr,
    get_song_info song_url = Raise (AttributeError attr)
    ∧ classify (AttributeError attr) = LookupError
    ∧ (∀ songs_urls, song_url ∈ songs_urls →
         ∃ e, comprehension get_song_info songs_urls = Raise e).
Proof.
  intros Hget Habsent.
  assert (∃ attr, get_song_info song_url = Raise (AttributeError attr))
    as [attr Hraise].
  { unfold get_song_info. rewrite Hget. simpl.
    destruct Habsent as [->|[->|Hletra]]; [by eexists|by eexists|].
    destruct (div_cnt_head_title song) as [[song_name|]|]; [|by eexists|by eexists].
    simpl. rewrite Hletra. by eexists. }
  exists attr. split_and!; [done|done|].
  intros songs_urls Hin. by eapply comprehension_raise.
Qed.

(** C2: when every URL of the list gives a record, the list of
    records has the length of the list of URLs and holds at each
    position the record of the URL at that position, in
    [get_artist_songs] and, whatever the order in which the tasks
    complete, in the pool of [scrap_songs_threading]. *)
Theorem aggregate_length_and_order (artist_url : py_str)
    (urls : list (option py_str)) :
  get_songs_list artist_url = Ok urls →
  (∀ url, url ∈ urls → ∃ info, get_song_info url = Ok info) →
  ∃ data,
    get_artist_songs artist_url = Ok data
    ∧ length data = length urls
    ∧ (∀ (i : nat) (url : option py_str),
         urls !! i = Some url →
         ∃ info, get_song_info url = Ok info ∧ data !! i = Some info)
    ∧ (∀ sched : list nat,
         sched ≡ₚ seq 0 (length urls) →
         executor_map get_song_info urls sched = Some (Ok data)).
Proof.
  intros Hlist Hall.
  destruct (comprehension_ok get_song_info urls Hall) as [data Hdata].
  exists data. split_and!.
  - unfold get_artist_songs. by rewrite Hlist.
  - apply comprehension_Forall2 in Hdata. symmetry. eapply Forall2_length, Hdata.
  - intros i url Hi. apply comprehension_Forall2 in Hdata.
    destruct (Forall2_lookup_l _ _ _ _ _ Hdata Hi) as (info & ? & ?). eauto.
  - intros sched Hperm. rewrite executor_map_permutation by done. by rewrite Hdata.
Qed.

(** C1: on a non-empty list of URLs that all give a record, the
    comprehension of [scrap_songs_concurrently] and the pool of
    [scrap_songs_threading], in whatever order its tasks complete,
    produce the same list of records, and the two functions return the
    same count and leave the same files. *)
Theorem aggregators_agree (songs_urls : list (option py_str)) (sched : list nat) :
  songs_urls ≠ [] →
  (∀ url, url ∈ songs_urls → ∃ info, get_song_info url = Ok info) →
  sched ≡ₚ seq 0 (length songs_urls) →
  ∃ songs_info,
    comprehension get_song_info songs_urls = Ok songs_info
    ∧ executor_map get_song_info songs_urls sched = Some (Ok songs_info)
    ∧ (∀ (artist_url output_name : py_str) (files : gmap py_str py_str),
         get_songs_list artist_url = Ok songs_urls →
         scrap_songs_threading sched artist_url output_name files
         = Some (scrap_songs_concurrently artist_url output_name files)).
Proof.
  intros _ Hall Hperm.
  destruct (comprehension_ok get_song_info songs_urls Hall) as [songs_info Hinfo].
  exists songs_info.
  split_and!; [done|by rewrite executor_map_permutation, Hinfo by done|].
  intros artist_url output_name files Hlist.
  unfold scrap_songs_threading, scrap_songs_concurrently.
  rewrite Hlist, executor_map_permutation, Hinfo by done.
  by destruct (open_w_json_dump output_name songs_info files) as [[[]|e] files'].
Qed.

(** C3: when the listing, every extraction and the opening of the
    file succeed, both export functions store under the output name
    followed by [.json], replacing what was there, the dump with
    indent 4 of the list of records, each a dict with the keys name,
    lyrics, url in this order, and return the number of listed URLs;
    when the listing or an extraction raises, they raise and leave
    every file as it was. *)
Theorem export_all_or_nothing (artist_url output_name : py_str)
    (files : gmap py_str py_str) :
  let path := output_name ++ lit ".json" in
  (∀ songs_urls : list (option py_str),
     get_songs_list artist_url = Ok songs_urls →
     (∀ url, url ∈ songs_urls → ∃ info, get_song_info url = Ok info) →
     writable path = true →
     ∃ songs_info : list dict,
       comprehension get_song_info songs_urls = Ok songs_info
       ∧ Forall (λ info : dict, info.*1 = [lit "name"; lit "lyrics"; lit "url"])
           songs_info
       ∧ scrap_songs_concurrently artist_url output_name files
         = (Ok (length songs_urls), <[path := json_dump songs_info 4]> files)
       ∧ (∀ sched : list nat,
            sched ≡ₚ seq 0 (length songs_urls) →
            scrap_songs_threading sched artist_url output_name files
            = Some (Ok (length songs_urls), <[path := json_dump songs_info 4]> files)))
  ∧ (∀ e : exn,
       get_songs_list artist_url = Raise e →
       scrap_songs_concurrently artist_url output_name files = (Raise e, files)
       ∧ (∀ sched : list nat,
            scrap_songs_threading sched artist_url output_name files
            = Some (Raise e, files)))
  ∧ (∀ (songs_urls : list (option py_str)) (url : option py_str) (e0 : exn),
       get_songs_list artist_url = Ok songs_urls →
       url ∈ songs_urls →
       get_song_info url = Raise e0 →
       ∃ e : exn,
         scrap_songs_concurrently artist_url output_name files = (Raise e, files)
         ∧ (∀ sched : list nat,
              sched ≡ₚ seq 0 (length songs_urls) →
              scrap_songs_threading sched artist_url output_name files
              = Some (Raise e, files))).
Proof.
  intros path. split_and!.
  - intros songs_urls Hlist Hall Hw.
    destruct (comprehension_ok get_song_info songs_urls Hall) as [songs_info Hinfo].
    assert (length songs_info = length songs_urls) as Hlen.
    { apply comprehension_Forall2 in Hinfo. symmetry. eapply Forall2_length, Hinfo. }
    exists songs_info. split_and!.
    + done.
    + apply comprehension_Forall2 in Hinfo. apply Forall_lookup. intros i info Hi.
      destruct (Forall2_lookup_r _ _ _ _ _ Hinfo Hi) as (url & _ & Hurl).
      apply get_song_info_Ok_inv in Hurl as (? & ? & ? & _ & _ & _ & ->). done.
    + unfold scrap_songs_concurrently, open_w_json_dump.
      fold path. by rewrite Hlist, Hinfo, Hw, Hlen.
    + intros sched Hperm. unfold scrap_songs_threading, open_w_json_dump.
      fold path. by rewrite Hlist, executor_map_permutation, Hinfo, Hw, Hlen by done.
  - intros e Hlist. unfold scrap_songs_concurrently, scrap_songs_threading.
    by rewrite Hlist.
  - intros songs_urls url e0 Hlist Hin Hraise.
    destruct (comprehension_raise get_song_info songs_urls url e0 Hin Hraise)
      as [e He].
    exists e. unfold scrap_songs_concurrently, scrap_songs_threading.
    rewrite Hlist, He. split; [done|].
    intros sched Hperm. by rewrite executor_map_permutation, He by done.
Qed.

(** ** Further facts about the flattened mode *)

Lemma camel_from_lookup (prev : option N) (s : py_str) (i : nat) (p c : N) :
  camel_from prev s = false →
  s !! i = Some p → s !! S i = Some c →
  is_upper_AZ c = true → is_word p = false.
Proof.
  revert prev i. induction s as [|c1 s IH]; intros prev i Hs Hp Hc Hu; [done|].
  cbn [camel_from] in Hs. apply orb_false_iff in Hs as [_ Hs].
  destruct i as [|i].
  - simpl in Hp. injection Hp as ->.
    destruct s as [|c2 s]; [done|]. simpl in Hc. injection Hc as ->.
    cbn [camel_from from_option] in Hs. apply orb_false_iff in Hs as [Hs _].
    rewrite Hu, andb_true_r in Hs. exact Hs.
  - exact (IH (Some c1) i Hs Hp Hc Hu).
Qed.

(** After the substitution a paragraph followed by its space has no
    letter of [A-Z] right after a word character. *)
Lemma camel_from_sub_B_upper (s : py_str) (prev prev' : option N) (rest : py_str) :
  from_option is_word false prev = from_option is_word false prev' →
  camel_from prev (sub_B_upper_from prev' s ++ SP :: rest)
  = camel_from (Some SP) rest.
Proof.
  revert prev prev'. induction s as [|c s IH]; intros prev prev' Hprev.
  - cbn [sub_B_upper_from app camel_from].
    change (is_upper_AZ SP) with false. by rewrite andb_false_r.
  - cbn [sub_B_upper_from]. rewrite <- app_assoc.
    destruct (is_upper_AZ c && not_boundary prev' c) eqn:Hins.
    + cbn [app camel_from from_option].
      change (is_upper_AZ SP) with false. change (is_word SP) with false.
      rewrite andb_false_r. cbn [andb orb]. by apply IH.
    + cbn [app camel_from]. rewrite (IH (Some c) (Some c)) by done.
      destruct (is_upper_AZ c) eqn:Hu; [|by rewrite andb_false_r].
      cbn [andb] in Hins. unfold not_boundary in Hins.
      rewrite (is_upper_AZ_is_word c Hu) in Hins.
      rewrite Hprev. by destruct (from_option is_word false prev').
Qed.

Lemma camel_from_chunks (ps : list p_tag) (prev : option N) :
  from_option is_word false prev = false →
  camel_from prev (concat (map (λ p, re_sub_B_upper (p_text p) ++ [SP]) ps)) = false.
Proof.
  revert prev. induction ps as [|p ps IH]; intros prev Hprev; [done|].
  cbn [map concat]. rewrite <- app_assoc. cbn [app]. unfold re_sub_B_upper at 1.
  rewrite (camel_from_sub_B_upper _ prev None) by done. by apply IH.
Qed.

(** Replacing the runs of spaces brings no such letter next to a word
    character. *)
Lemma camel_from_sub_spaces (s : py_str) (prev : option N) (b : bool) :
  (b = true → prev = Some SP) →
  camel_from prev s = false →
  camel_from prev (sub_spaces_from b s) = false.
Proof.
  revert prev b. induction s as [|c s IH]; intros prev b Hb Hs; [done|].
  cbn [camel_from] in Hs. apply orb_false_iff in Hs as [Hc Hs].
  cbn [sub_spaces_from]. destruct (N.eqb_spec c SP) as [->|Hne].
  - destruct b.
    + rewrite (Hb eq_refl). by apply IH.
    + cbn [app camel_from]. change (is_upper_AZ SP) with false.
      rewrite andb_false_r. by apply IH.
  - cbn [camel_from]. rewrite Hc. by apply IH.
Qed.

(** Where no such letter is, the first substitution changes nothing. *)
Lemma sub_B_upper_from_id (prev : option N) (s : py_str) :
  camel_from prev s = false → sub_B_upper_from prev s = s.
Proof.
  revert prev. induction s as [|c s IH]; intros prev Hs; [done|].
  cbn [camel_from] in Hs. apply orb_false_iff in Hs as [Hc Hs].
  cbn [sub_B_upper_from]. rewrite (IH _ Hs).
  destruct (is_upper_AZ c) eqn:Hu; [|done].
  rewrite andb_true_r in Hc. unfold not_boundary.
  by rewrite Hc, (is_upper_AZ_is_word c Hu).
Qed.

Lemma filter_non_space_sub_spaces (b : bool) (s : py_str) :
  filter (λ c, c ≠ SP) (sub_spaces_from b s) = filter (λ c, c ≠ SP) s.
Proof.
  revert b. induction s as [|c s IH]; intros b; [done|].
  cbn [sub_spaces_from]. destruct (N.eqb_spec c SP) as [->|Hne].
  - rewrite filter_app, IH, (filter_cons_False _ SP) by (intros H; by apply H).
    destruct b; [done|]. by rewrite (filter_cons_False _ SP) by (intros H; by apply H).
  - by rewrite !filter_cons_True, IH by done.
Qed.

Lemma filter_non_space_sub_B_upper (prev : option N) (s : py_str) :
  filter (λ c, c ≠ SP) (sub_B_upper_from prev s) = filter (λ c, c ≠ SP) s.
Proof.
  revert prev. induction s as [|c s IH]; intros prev; [done|].
  cbn [sub_B_upper_from]. rewrite filter_app, IH.
  rewrite (filter_cons _ c s).
  destruct (is_upper_AZ c && not_boundary prev c).
  - rewrite (filter_cons_False _ SP) by (intros H; by apply H).
    rewrite (filter_cons _ c []). by destruct (decide (c ≠ SP)).
  - rewrite (filter_cons _ c []). by destruct (decide (c ≠ SP)).
Qed.

(** X1: in the string [get_lyrics_from_div] returns in flattened mode no
    letter of [A-Z] comes right after a word character. *)
Theorem flattened_no_camel (parrafos : list p_tag) (lyric : py_str)
    (i : nat) (p c : N) :
  get_lyrics_from_div (Some parrafos) false = Ok lyric →
  lyric !! i = Some p → lyric !! S i = Some c →
  is_upper_AZ c = true → is_word p = false.
Proof.
  intros [= <-].
  rewrite (foldl_sub_spaces (λ p, re_sub_B_upper (p_text p) ++ [SP])).
  apply (camel_from_lookup None).
  apply camel_from_sub_spaces; [done|]. by apply camel_from_chunks.
Qed.

(** X2: the flattened mode of [get_lyrics_from_div] keeps every character
    of the paragraphs' texts that is not a space, in order, and adds
    nothing but spaces. *)
Theorem flattened_keeps_non_spaces (parrafos : list p_tag) (lyric : py_str) :
  get_lyrics_from_div (Some parrafos) false = Ok lyric →
  filter (λ c, c ≠ SP) lyric
  = concat (map (λ p, filter (λ c, c ≠ SP) (p_text p)) parrafos).
Proof.
  intros [= <-].
  rewrite (foldl_sub_spaces (λ p, re_sub_B_upper (p_text p) ++ [SP])).
  unfold re_sub_spaces. rewrite filter_non_space_sub_spaces.
  induction parrafos as [|p ps IH]; [done|].
  cbn [map concat]. rewrite !filter_app, IH. unfold re_sub_B_upper at 1.
  rewrite filter_non_space_sub_B_upper.
  rewrite (filter_cons_False _ SP) by (intros H; by apply H).
  by rewrite filter_nil, app_nil_r.
Qed.

(** X3: the flattened mode is idempotent on what it returns for a
    fragment with a paragraph: a paragraph whose text is that string
    gives the same string again. *)
Theorem flattened_idempotent (parrafos : list p_tag) (lyric markup : py_str) :
  parrafos ≠ [] →
  get_lyrics_from_div (Some parrafos) false = Ok lyric →
  get_lyrics_from_div (Some [P_tag lyric markup]) false = Ok lyric.
Proof.
  intros Hne [= <-].
  destruct (foldl_sub_spaces_ends_SP (λ p, re_sub_B_upper (p_text p)) _ Hne)
    as [z Hz].
  pose proof (foldl_sub_spaces (λ p, re_sub_B_upper (p_text p) ++ [SP]) parrafos)
    as Hcat.
  cbv beta in Hz, Hcat.
  unfold get_lyrics_from_div. cbn [getattr mbind result_bind foldl p_text app].
  f_equal. unfold re_sub_B_upper at 1.
  rewrite sub_B_upper_from_id.
  - transitivity (re_sub_spaces (z ++ [SP])).
    + rewrite Hz. pose proof (sub_spaces_from_SP_SP false z []) as H.
      cbn [app] in H. by rewrite app_nil_r in H.
    + rewrite <- Hz, Hcat.
      pose proof (sub_spaces_from_absorb false
                    (concat (map (λ p, re_sub_B_upper (p_text p) ++ [SP]) parrafos))
                    []) as H.
      by rewrite !app_nil_r in H.
  - rewrite Hcat. apply camel_from_sub_spaces; [done|]. by apply camel_from_chunks.
Qed.

(** ** Further facts about the line-preserving mode *)

Lemma startswith_app_true (old a b : py_str) :
  startswith old a = true → startswith old (a ++ b) = true.
Proof.
  revert a. induction old as [|o old IH]; intros [|c a]; simpl; try done.
  intros [-> H]%andb_true_iff. by apply IH.
Qed.

Lemma startswith_app_long (old a b : py_str) :
  length old ≤ length a → startswith old (a ++ b) = startswith old a.
Proof.
  revert a. induction old as [|o old IH]; intros [|c a] Hlen; simpl in *;
    [done|done|lia|].
  rewrite IH by lia. done.
Qed.

(** When [old] starts in [a] and ends beyond it, what is left of [old]
    starts the rest. *)
Lemma startswith_overlap (old a t : py_str) :
  startswith old (a ++ t) = true → length a ≤ length old →
  startswith (drop (length a) old) t = true.
Proof.
  revert old. induction a as [|c a IH]; intros old H Hlen; [done|].
  destruct old as [|o old]; [simpl in Hlen; lia|].
  simpl in H. apply andb_true_iff in H as [_ H].
  simpl. apply IH; [done|]. simpl in Hlen. lia.
Qed.

(** No end of [old] starts [t]: no occurrence of [old] begins before
    [t] and ends in it. *)
Lemma startswith_no_straddle (old t x : py_str) (i : nat) :
  (∀ m : nat, 0 < m < length old →
              startswith (drop (length old - m) old) t = false) →
  i < length x →
  startswith old (drop i (x ++ t)) = true →
  i + length old ≤ length x.
Proof.
  intros Hborder Hi Hocc.
  destruct (decide (i + length old ≤ length x)) as [|Hover]; [done|].
  rewrite drop_app_le in Hocc by lia.
  apply startswith_overlap in Hocc; [|rewrite length_drop; lia].
  rewrite length_drop in Hocc.
  pose proof (Hborder (length old - (length x - i)) ltac:(lia)) as Hb.
  replace (length old - (length old - (length x - i))) with (length x - i)
    in Hb by lia.
  congruence.
Qed.

(** A suffix that no occurrence of [old] touches is left as it is. *)
Lemma replace_scan_suffix (old new t x : py_str) (k : nat) :
  old ≠ [] →
  (∀ m : nat, 0 < m < length old →
              startswith (drop (length old - m) old) t = false) →
  (∀ j : nat, startswith old (drop j t) = false) →
  k ≤ length x →
  replace_scan old new k (x ++ t) = replace_scan old new k x ++ t.
Proof.
  intros Hold Hborder Ht. revert k. induction x as [|c x IH]; intros k Hk.
  - simpl in Hk. replace k with 0 by lia. simpl.
    pose proof (str_replace_absent old new t Hold Ht) as Habs.
    unfold str_replace in Habs. by destruct old.
  - change ((c :: x) ++ t) with (c :: (x ++ t)). destruct k as [|k].
    + cbn [replace_scan].
      destruct (startswith old (c :: (x ++ t))) eqn:Hocc.
      * pose proof (startswith_no_straddle old t (c :: x) 0 Hborder
                      ltac:(simpl; lia) Hocc) as Hlen.
        change (c :: (x ++ t)) with ((c :: x) ++ t) in Hocc.
        rewrite startswith_app_long in Hocc by lia. rewrite Hocc.
        rewrite IH, app_assoc; [done|]. simpl in Hlen. lia.
      * destruct (startswith old (c :: x)) eqn:Hocc'.
        { apply (startswith_app_true _ _ t) in Hocc'. simpl in Hocc'. congruence. }
        simpl. f_equal. apply IH. lia.
    + cbn [replace_scan]. apply IH. simpl in Hk. lia.
Qed.

(** An occurrence of [old] at the very end is replaced, when [old] has
    no end that is also its start. *)
Lemma replace_scan_final (old new y : py_str) (k : nat) :
  old ≠ [] →
  (∀ m : nat, 0 < m < length old →
              startswith (drop (length old - m) old) old = false) →
  k ≤ length y →
  replace_scan old new k (y ++ old) = replace_scan old new k y ++ new.
Proof.
  intros Hold Hborder. revert k. induction y as [|c y IH]; intros k Hk.
  - simpl in Hk. replace k with 0 by lia.
    destruct old as [|o old]; [done|]. cbn [app replace_scan].
    pose proof (startswith_app (o :: old) []) as Hself.
    rewrite app_nil_r in Hself. rewrite Hself. cbn [length].
    replace (S (length old) - 1) with (length old) by lia.
    pose proof (replace_scan_skip (o :: old) new old []) as Hskip.
    rewrite app_nil_r in Hskip. rewrite Hskip. simpl. by rewrite app_nil_r.
  - change ((c :: y) ++ old) with (c :: (y ++ old)). destruct k as [|k].
    + cbn [replace_scan].
      destruct (startswith old (c :: (y ++ old))) eqn:Hocc.
      * pose proof (startswith_no_straddle old old (c :: y) 0 Hborder
                      ltac:(simpl; lia) Hocc) as Hlen.
        change (c :: (y ++ old)) with ((c :: y) ++ old) in Hocc.
        rewrite startswith_app_long in Hocc by lia. rewrite Hocc.
        rewrite IH, app_assoc; [done|]. simpl in Hlen. lia.
      * destruct (startswith old (c :: y)) eqn:Hocc'.
        { apply (startswith_app_true _ _ old) in Hocc'. simpl in Hocc'. congruence. }
        simpl. f_equal. apply IH. lia.
    + cbn [replace_scan]. apply IH. simpl in Hk. lia.
Qed.

Local Ltac no_straddle_cases :=
  let m := fresh "m" in
  let H := fresh "H" in
  intros m H; vm_compute in H;
  do 6 (destruct m as [|m]; [first [reflexivity | lia]|]); lia.

Local Ltac no_occurrence_cases :=
  let j := fresh "j" in
  intros j; do 5 (destruct j as [|j]; [reflexivity|]); reflexivity.

(** The closing marker at the end of a markup is not touched by the four
    replacements before its own, which turns it into a newline. *)
Lemma breaklines_text_closing (text markup : py_str) :
  breaklines_text (P_tag text (markup ++ lit "</p>"))
  = breaklines_text (P_tag text markup) ++ [LF].
Proof.
  assert (∀ old new x : py_str,
            old ≠ [] →
            (∀ m : nat, 0 < m < length old →
                        startswith (drop (length old - m) old) (lit "</p>") = false) →
            (∀ j : nat, startswith old (drop j (lit "</p>")) = false) →
            str_replace (x ++ lit "</p>") old new
            = str_replace x old new ++ lit "</p>") as Hkeep.
  { intros old new x Hold Hb Ht. unfold str_replace.
    destruct old as [|o old]; [done|].
    apply replace_scan_suffix; [done|done|done|lia]. }
  unfold breaklines_text. cbn [p_str].
  rewrite (Hkeep (lit "<br>")); [|done|no_straddle_cases|no_occurrence_cases].
  rewrite (Hkeep (lit "<br/>")); [|done|no_straddle_cases|no_occurrence_cases].
  rewrite (Hkeep (lit "</br>")); [|done|no_straddle_cases|no_occurrence_cases].
  rewrite (Hkeep (lit "<p>")); [|done|no_straddle_cases|no_occurrence_cases].
  unfold str_replace at 1. cbn [lit].
  rewrite (replace_scan_final (lit "</p>")); [done|done|no_straddle_cases|lia].
Qed.

(** X4: when the markup of the last paragraph ends with its closing
    marker, the two characters that the line-preserving mode of
    [get_lyrics_from_div] cuts off are the two newlines that end the
    concatenation; nothing else is lost. *)
Theorem breaklines_trim_removes_newlines (parrafos : list p_tag)
    (text markup : py_str) :
  ∃ lyric : py_str,
    get_lyrics_from_div
      (Some (parrafos ++ [P_tag text (markup ++ lit "</p>")])) true = Ok lyric
    ∧ lyric ++ [LF; LF]
      = concat (map (λ p, breaklines_text p ++ [LF])
                  (parrafos ++ [P_tag text (markup ++ lit "</p>")]))
    ∧ lyric
      = concat (map (λ p, breaklines_text p ++ [LF]) parrafos)
        ++ breaklines_text (P_tag text markup).
Proof.
  assert (concat (map (λ p, breaklines_text p ++ [LF])
                    (parrafos ++ [P_tag text (markup ++ lit "</p>")]))
          = (concat (map (λ p, breaklines_text p ++ [LF]) parrafos)
             ++ breaklines_text (P_tag text markup)) ++ [LF; LF]) as Hwhole.
  { rewrite map_app, concat_app. cbn [map concat].
    rewrite breaklines_text_closing, app_nil_r, <- !app_assoc. done. }
  eexists. split_and!; [|by rewrite Hwhole|reflexivity].
  unfold get_lyrics_from_div. cbn [getattr mbind result_bind]. f_equal.
  rewrite (foldl_app_concat (λ p, breaklines_text p ++ [LF])), app_nil_l, Hwhole.
  apply slice_to_minus2_app.
Qed.

(** X5: once the page is fetched, [get_lyrics_from_url] and
    [get_lyrics_from_div] agree in line-preserving mode, on every
    container and when there is none; in flattened mode they agree when
    the container is absent or has no paragraph. *)
Theorem url_variant_agrees (song_url : option py_str) (song : soup) :
  requests_get song_url = Ok song →
  get_lyrics_from_url song_url true = get_lyrics_from_div (div_cnt_letra song) true
  ∧ (div_cnt_letra song = None ∨ div_cnt_letra song = Some [] →
     get_lyrics_from_url song_url false
     = get_lyrics_from_div (div_cnt_letra song) false).
Proof.
  intros Hget. unfold get_lyrics_from_url, get_lyrics_from_div. rewrite Hget.
  split; [reflexivity|]. intros [H|H]; simpl; rewrite H; reflexivity.
Qed.

(** ** Further facts about the pipeline *)

Lemma comprehension_first_raise {A B} (f : A → result B) (done : list A) (x : A)
    (rest : list A) (e : exn) :
  (∀ u, u ∈ done → ∃ r, f u = Ok r) → f x = Raise e →
  comprehension f (done ++ x :: rest) = Raise e.
Proof.
  intros Hdone Hx. induction done as [|u done IH]; simpl.
  - unfold mbind, result_bind. by rewrite Hx.
  - destruct (Hdone u) as [r Hr]; [by left|].
    unfold mbind, result_bind in *. rewrite Hr, IH; [done|].
    intros u' Hu'. apply Hdone. by right.
Qed.

(** Each future is pending or holds the outcome of its own call. *)
Lemma foldl_complete_task_own {A B} (fn : A → result B) (args : list A)
    (sched : list nat) (fs : list (future B)) :
  Forall2 (λ a fut, fut = None ∨ fut = Some (fn a)) args fs →
  Forall2 (λ a fut, fut = None ∨ fut = Some (fn a)) args
    (foldl (complete_task fn args) fs sched).
Proof.
  revert fs. induction sched as [|j sched IH]; intros fs Hfs; [done|].
  simpl. apply IH. unfold complete_task.
  destruct (args !! j) as [a|] eqn:Ha; [|done].
  rewrite <- (list_insert_id args j a Ha). apply Forall2_insert; [done|by right].
Qed.

Lemma result_iterator_own {A B} (fn : A → result B) (args : list A)
    (fs : list (future B)) (r : result (list B)) :
  Forall2 (λ a fut, fut = None ∨ fut = Some (fn a)) args fs →
  result_iterator fs = Some r → r = comprehension fn args.
Proof.
  intros Hfs. revert r. induction Hfs as [|a fut args fs Hfut _ IH]; intros r.
  - by intros [= <-].
  - simpl. unfold mbind, result_bind.
    destruct Hfut as [->| ->]; [done|].
    destruct (fn a) as [y|e]; [|by intros [= <-]].
    destruct (result_iterator fs) as [[rs|e]|]; [| |done].
    + intros [= <-]. by rewrite <- (IH (Ok rs)).
    + intros [= <-]. by rewrite <- (IH (Raise e)).
Qed.

(** Whatever completes and in whatever order, the pool gives, when it
    gives anything, what the comprehension gives. *)
Lemma executor_map_sound {A B} (fn : A → result B) (args : list A)
    (sched : list nat) (r : result (list B)) :
  executor_map fn args sched = Some r → r = comprehension fn args.
Proof.
  unfold executor_map. apply result_iterator_own, foldl_complete_task_own.
  unfold submit_all. induction args as [|a args IH]; constructor; [by left|done].
Qed.

(** The iterator re-raises at the first future that raised without
    reading the futures after it. *)
Lemma result_iterator_first_raise {A B} (fn : A → result B) (done : list A)
    (fs : list (future B)) (e : exn) :
  (∀ u, u ∈ done → ∃ r, fn u = Ok r) →
  (∀ (i : nat) (u : A), done !! i = Some u → fs !! i = Some (Some (fn u))) →
  fs !! length done = Some (Some (Raise e)) →
  result_iterator fs = Some (Raise e).
Proof.
  revert fs. induction done as [|u done IH]; intros fs Hok Hdone Hraise.
  - destruct fs as [|fut fs]; [done|]. simpl in Hraise. by injection Hraise as ->.
  - destruct fs as [|fut fs]; [done|].
    pose proof (Hdone 0 u eq_refl) as Hfut. simpl in Hfut. injection Hfut as ->.
    destruct (Hok u) as [r Hr]; [by left|]. simpl. rewrite Hr.
    rewrite (IH fs); [done| | |done].
    + intros u' Hu'. apply Hok. by right.
    + intros i u' Hi. exact (Hdone (S i) u' Hi).
Qed.

Lemma executor_map_first_raise {A B} (fn : A → result B) (done : list A) (x : A)
    (rest : list A) (sched : list nat) (e : exn) :
  (∀ u, u ∈ done → ∃ r, fn u = Ok r) → fn x = Raise e →
  (∀ i : nat, i ≤ length done → i ∈ sched) →
  executor_map fn (done ++ x :: rest) sched = Some (Raise e).
Proof.
  intros Hok Hx Hcover. unfold executor_map.
  apply (result_iterator_first_raise fn done); [done| |].
  - intros i u Hi. apply foldl_complete_task_done.
    + apply length_replicate.
    + apply Hcover. apply lookup_lt_Some in Hi. lia.
    + by apply lookup_app_l_Some.
  - rewrite <- Hx. apply foldl_complete_task_done.
    + apply length_replicate.
    + by apply Hcover.
    + by rewrite list_lookup_middle.
Qed.

Lemma executor_map_nil {A B} (fn : A → result B) (sched : list nat) :
  executor_map fn [] sched = Some (Ok []).
Proof.
  unfold executor_map, submit_all. simpl.
  induction sched as [|j sched IH]; [done|]. simpl. exact IH.
Qed.

(** X6: [get_song_info] returns a record exactly when the page is
    fetched and has the heading container, the heading in it and the
    lyrics container; the record then holds the heading's text as it is,
    the paragraphs' texts with a space before the letters of [A-Z] that
    follow a word character, a space after each and the runs of spaces
    replaced by one space, and the URL it was given. *)
Theorem get_song_info_Ok_iff (song_url : option py_str) (info : dict) :
  get_song_info song_url = Ok info
  ↔ ∃ (song : soup) (song_name : py_str) (parrafos : list p_tag),
      requests_get song_url = Ok song
      ∧ div_cnt_head_title song = Some (Some song_name)
      ∧ div_cnt_letra song = Some parrafos
      ∧ info = [(lit "name", Some song_name);
                (lit "lyrics",
                 Some (re_sub_spaces
                         (concat (map (λ p, re_sub_B_upper (p_text p) ++ [SP])
                                    parrafos))));
                (lit "url", song_url)].
Proof.
  split.
  - intros (song & song_name & lyrics & Hget & Hhead & Hlyr & ->)%get_song_info_Ok_inv.
    destruct (div_cnt_letra song) as [parrafos|] eqn:Hdiv; [|done].
    exists song, song_name, parrafos. split_and!; [done|done|done|].
    injection Hlyr as <-.
    by rewrite (foldl_sub_spaces (λ p, re_sub_B_upper (p_text p) ++ [SP])).
  - intros (song & song_name & parrafos & Hget & Hhead & Hdiv & ->).
    unfold get_song_info. rewrite Hget. simpl. rewrite Hhead, Hdiv. simpl.
    by rewrite (foldl_sub_spaces (λ p, re_sub_B_upper (p_text p) ++ [SP])).
Qed.

(** X7: when the URLs before a failing one all give a record, the
    comprehension raises the exception of that URL, and so does the pool
    as soon as the tasks up to that one have completed, whatever the
    later URLs give and whether or not their tasks complete. *)
Theorem first_failure_is_raised (done : list (option py_str)) (url : option py_str)
    (rest : list (option py_str)) (e : exn) :
  (∀ u, u ∈ done → ∃ info, get_song_info u = Ok info) →
  get_song_info url = Raise e →
  comprehension get_song_info (done ++ url :: rest) = Raise e
  ∧ (∀ sched : list nat,
       (∀ i : nat, i ≤ length done → i ∈ sched) →
       executor_map get_song_info (done ++ url :: rest) sched = Some (Raise e)).
Proof.
  intros Hdone Hurl. split.
  - by apply comprehension_first_raise.
  - intros sched Hcover. by apply executor_map_first_raise.
Qed.

(** X8: whatever tasks complete and in whatever order, the pool either
    makes the main thread wait or gives what the comprehension gives on
    the same URLs: never part of the records, never an exception other
    than that of the first failing URL. *)
Theorem pool_gives_comprehension (songs_urls : list (option py_str))
    (sched : list nat) (r : result (list dict)) :
  executor_map get_song_info songs_urls sched = Some r →
  r = comprehension get_song_info songs_urls
  ∧ (∀ songs_info, r = Ok songs_info → length songs_info = length songs_urls).
Proof.
  intros ->%executor_map_sound. split; [done|].
  intros songs_info Hinfo. apply comprehension_Forall2 in Hinfo.
  symmetry. eapply Forall2_length, Hinfo.
Qed.

(** X9: [scrap_songs_threading], when it returns, returns the count or
    the exception and leaves the files that [scrap_songs_concurrently]
    does; it returns when the listing raises and when every task of the
    listed URLs completes. *)
Theorem threading_refines_concurrently (sched : list nat)
    (artist_url output_name : py_str) (files : gmap py_str py_str) :
  (∀ out, scrap_songs_threading sched artist_url output_name files = Some out →
          out = scrap_songs_concurrently artist_url output_name files)
  ∧ (∀ e, get_songs_list artist_url = Raise e →
          scrap_songs_threading sched artist_url output_name files
          = Some (scrap_songs_concurrently artist_url output_name files))
  ∧ (∀ songs_urls,
       get_songs_list artist_url = Ok songs_urls →
       (∀ i : nat, i < length songs_urls → i ∈ sched) →
       scrap_songs_threading sched artist_url output_name files
       = Some (scrap_songs_concurrently artist_url output_name files)).
Proof.
  unfold scrap_songs_threading, scrap_songs_concurrently. split_and!.
  - intros out. destruct (get_songs_list artist_url) as [songs_urls|e];
      [|by intros [= <-]].
    destruct (executor_map get_song_info songs_urls sched) as [r|] eqn:Hpool;
      [|done].
    apply executor_map_sound in Hpool as <-.
    destruct r as [songs_info|e]; [|by intros [= <-]].
    destruct (open_w_json_dump output_name songs_info files) as [[[]|e] files'];
      by intros [= <-].
  - by intros e ->.
  - intros songs_urls -> Hcover. rewrite executor_map_comprehension by done.
    destruct (comprehension get_song_info songs_urls) as [songs_info|e]; [|done].
    by destruct (open_w_json_dump output_name songs_info files) as [[[]|e] files'].
Qed.


(** X11: when every listed URL gives a record and the output file
    cannot be opened, both export functions raise the error of [open]
    and leave every file as it was. *)
Theorem export_open_fails (artist_url output_name : py_str)
    (files : gmap py_str py_str) (songs_urls : list (option py_str)) :
  get_songs_list artist_url = Ok songs_urls →
  (∀ url, url ∈ songs_urls → ∃ info, get_song_info url = Ok info) →
  writable (output_name ++ lit ".json") = false →
  scrap_songs_concurrently artist_url output_name files = (Raise OSError, files)
  ∧ (∀ sched : list nat,
       sched ≡ₚ seq 0 (length songs_urls) →
       scrap_songs_threading sched artist_url output_name files
       = Some (Raise OSError, files)).
Proof.
  intros Hlist Hall Hw.
  destruct (comprehension_ok get_song_info songs_urls Hall) as [songs_info Hinfo].
  unfold scrap_songs_concurrently, scrap_songs_threading, open_w_json_dump.
  rewrite Hlist, Hinfo, Hw. split; [done|].
  intros sched Hperm. by rewrite executor_map_permutation, Hinfo by done.
Qed.

(** X12: on a listing page without catalog rows, [get_artist_songs]
    returns the empty list and both export functions, the pool under any
    schedule, write the dump of the empty list and return 0. *)
Theorem export_empty_catalog (artist_url output_name : py_str)
    (files : gmap py_str py_str) (page : soup) :
  requests_get (Some (artist_url ++ lit "mais_acessadas.html")) = Ok page →
  li_cnt_list_row page = [] →
  writable (output_name ++ lit ".json") = true →
  get_artist_songs artist_url = Ok []
  ∧ scrap_songs_concurrently artist_url output_name files
    = (Ok 0, <[output_name ++ lit ".json" := json_dump [] 4]> files)
  ∧ (∀ sched : list nat,
       scrap_songs_threading sched artist_url output_name files
       = Some (Ok 0, <[output_name ++ lit ".json" := json_dump [] 4]> files)).
Proof.
  intros Hget Hrows Hw.
  assert (get_songs_list artist_url = Ok []) as Hlist.
  { unfold get_songs_list. rewrite Hget. simpl. by rewrite Hrows. }
  unfold get_artist_songs, scrap_songs_concurrently, scrap_songs_threading,
    open_w_json_dump.
  cbv zeta. rewrite Hlist, Hw. split_and!; [done|done|].
  intros sched. by rewrite executor_map_nil.
Qed.

(** X13: when the fetch of [None] raises, a catalog row without the
    [data-shareurl] attribute makes [get_artist_songs] and both export
    functions raise, and no file is written. *)
Theorem missing_url_aborts (artist_url output_name : py_str)
    (files : gmap py_str py_str) (page : soup) (item : gmap py_str py_str)
    (e0 : exn) :
  requests_get (Some (artist_url ++ lit "mais_acessadas.html")) = Ok page →
  item ∈ li_cnt_list_row page →
  item !! lit "data-shareurl" = None →
  requests_get None = Raise e0 →
  ∃ e : exn,
    get_artist_songs artist_url = Raise e
    ∧ scrap_songs_concurrently artist_url output_name files = (Raise e, files)
    ∧ (∀ sched : list nat,
         sched ≡ₚ seq 0 (length (li_cnt_list_row page)) →
         scrap_songs_threading sched artist_url output_name files
         = Some (Raise e, files)).
Proof.
  intros Hget Hitem Hnone Hfetch.
  assert (get_songs_list artist_url
          = Ok (map (λ song : gmap py_str py_str, song !! lit "data-shareurl")
                  (li_cnt_list_row page))) as Hlist.
  { unfold get_songs_list. by rewrite Hget. }
  assert (get_song_info None = Raise e0) as Hinfo.
  { unfold get_song_info. by rewrite Hfetch. }
  destruct (comprehension_raise get_song_info
              (map (λ song : gmap py_str py_str, song !! lit "data-shareurl")
                 (li_cnt_list_row page)) None e0) as [e He]; [|done|].
  { rewrite <- Hnone. apply list_elem_of_fmap. by exists item. }
  exists e.
  unfold get_artist_songs, scrap_songs_concurrently, scrap_songs_threading.
  rewrite Hlist. unfold mbind, result_bind. rewrite He. split_and!; [done|done|].
  intros sched Hperm. rewrite executor_map_permutation, He; [done|].
  by rewrite length_map.
Qed.

End Scrap.

(** ** The statements on the sample data *)

(** C4: on the page of the second sample song [get_lyrics_from_url]
    returns, in flattened mode, a string that ends with two spaces,
    where [get_lyrics_from_div] returns it with one. *)
Theorem get_lyrics_from_url_double_space :
  get_lyrics_from_url latin1_isalnum sample_web (Some sample_two) false
  = Ok (lit "Hello World  ")
  ∧ has_double_space (lit "Hello World  ") = true
  ∧ get_lyrics_from_div latin1_isalnum
      (Some [P_tag (lit "HelloWorld") (lit "<p>Hello<br/>World</p>")]) false
    = Ok (lit "Hello World ").
Proof. split_and!; vm_compute; reflexivity. Qed.

(** C7 as stated fails: in the text of a followed by the capital E with
    acute accent (code point 201) the capital is an uppercase letter
    between two word characters, so not at a word boundary, and no space
    is put before it. *)
Lemma camel_split_skips_non_ascii_uppercase :
  is_word latin1_isalnum 97%N = true
  ∧ is_word latin1_isalnum 201%N = true
  ∧ not_boundary latin1_isalnum (Some 97%N) 201%N = true
  ∧ is_upper_AZ 201%N = false
  ∧ re_sub_B_upper latin1_isalnum [97%N; 201%N] = [97%N; 201%N]
  ∧ get_lyrics_from_div latin1_isalnum
      (Some [P_tag [97%N; 201%N] (lit "<p>a" ++ [201%N] ++ lit "</p>")]) false
    = Ok [97%N; 201%N; SP]
  ∧ get_lyrics_from_div latin1_isalnum
      (Some [P_tag [97%N; 201%N] (lit "<p>a" ++ [201%N] ++ lit "</p>")]) false
    ≠ Ok [97%N; SP; 201%N; SP].
Proof. split_and!; try (vm_compute; reflexivity). vm_compute. intros [=]. Qed.

(** C5 as stated fails: on the fragment of two paragraphs the result is
    neither the stated string without its last two characters nor the
    stated string. *)
Lemma breaklines_example_not_as_stated :
  get_lyrics_from_div latin1_isalnum (Some two_paragraphs) true
  ≠ Ok (slice_to_minus2
          (lit "Line one" ++ [LF] ++ lit "cont." ++ [LF; LF] ++ lit "Line two" ++ [LF]))
  ∧ get_lyrics_from_div latin1_isalnum (Some two_paragraphs) true
    ≠ Ok (lit "Line one" ++ [LF] ++ lit "cont." ++ [LF; LF] ++ lit "Line two" ++ [LF]).
Proof. split; vm_compute; intros [=]. Qed.

(** The replacement facts of C5 on the first paragraph of the fragment:
    its line break is the leftmost one, and none follows it. *)
Lemma breaklines_fixed_trim_witness :
  str_replace (lit "<p>Line one" ++ lit "<br>" ++ lit "cont.</p>") (lit "<br>") [LF]
  = lit "<p>Line one" ++ [LF] ++ str_replace (lit "cont.</p>") (lit "<br>") [LF]
  ∧ str_replace (lit "cont.</p>") (lit "<br>") [LF] = lit "cont.</p>"
  ∧ get_lyrics_from_div latin1_isalnum (Some two_paragraphs) true
    = Ok (lit "Line one" ++ [LF] ++ lit "cont." ++ [LF; LF] ++ lit "Line two").
Proof.
  pose proof (breaklines_fixed_trim latin1_isalnum two_paragraphs) as H.
  cbv zeta in H. destruct H as (_ & _ & Hleft & Habsent & _ & _ & Hex).
  split_and!.
  - apply Hleft; [discriminate|]. intros i Hi.
    do 11 (destruct i as [|i]; [reflexivity|]). simpl in Hi. lia.
  - apply Habsent; [discriminate|]. intros i.
    do 9 (destruct i as [|i]; [reflexivity|]). destruct i; reflexivity.
  - exact Hex.
Defined.

(** The statement of C10 on the page of the first sample song. *)
Lemma url_variant_extra_space_witness :
  ∃ lyric,
    get_lyrics_from_div latin1_isalnum (Some two_paragraphs) false = Ok lyric
    ∧ get_lyrics_from_url latin1_isalnum sample_web (Some sample_one) false
      = Ok (lyric ++ [SP])
    ∧ (∃ z, lyric ++ [SP] = z ++ [SP; SP])
    ∧ has_double_space (lyric ++ [SP]) = true
    ∧ has_double_space lyric = false
    ∧ get_lyrics_from_url latin1_isalnum sample_web (Some sample_one) false
      ≠ get_lyrics_from_div latin1_isalnum (Some two_paragraphs) false
    ∧ (∀ info, get_song_info latin1_isalnum sample_web (Some sample_one) = Ok info →
               info !! 1 = Some (lit "lyrics", Some lyric)).
Proof.
  apply (url_variant_extra_space latin1_isalnum sample_web (Some sample_one)
           (Soup [] (Some (Some (lit "One"))) (Some two_paragraphs)) two_paragraphs).
  - vm_compute. reflexivity.
  - reflexivity.
  - discriminate.
Defined.

(** The statement of C8 on the listing whose second row has no URL. *)
Lemma get_songs_list_placeholders_witness :
  ∃ songs_urls,
    get_songs_list sample_web gaps_artist = Ok songs_urls
    ∧ length songs_urls = 3
    ∧ (∀ (i : nat) (item : gmap py_str py_str),
         [ {[ lit "data-shareurl" := sample_one ]};
           {[ lit "data-id" := lit "7" ]};
           {[ lit "data-shareurl" := untitled_song ]} ] !! i = Some item →
         songs_urls !! i = Some (item !! lit "data-shareurl"))
    ∧ (∀ (i : nat) (item : gmap py_str py_str),
         [ {[ lit "data-shareurl" := sample_one ]};
           {[ lit "data-id" := lit "7" ]};
           {[ lit "data-shareurl" := untitled_song ]} ] !! i = Some item →
         item !! lit "data-shareurl" = None →
         songs_urls !! i = Some None).
Proof.
  apply (get_songs_list_placeholders sample_web gaps_artist
           (Soup [ {[ lit "data-shareurl" := sample_one ]};
                   {[ lit "data-id" := lit "7" ]};
                   {[ lit "data-shareurl" := untitled_song ]} ] None None)).
  vm_compute. reflexivity.
Defined.

(** The statement of C6 on the page without a heading container. *)
Lemma get_song_info_lookup_error_witness :
  ∃ attr,
    get_song_info latin1_isalnum sample_web (Some untitled_song)
    = Raise (AttributeError attr)
    ∧ classify (AttributeError attr) = LookupError
    ∧ (∀ songs_urls, Some untitled_song ∈ songs_urls →
         ∃ e, comprehension (get_song_info latin1_isalnum sample_web) songs_urls
              = Raise e).
Proof.
  apply (get_song_info_lookup_error latin1_isalnum sample_web (Some untitled_song)
           (Soup [] None (Some two_paragraphs))).
  - vm_compute. reflexivity.
  - left. reflexivity.
Defined.

(** Both songs of the sample artist give a record. *)
Lemma sample_songs_all_succeed (url : option py_str) :
  url ∈ [Some sample_one; Some sample_two] →
  ∃ info, get_song_info latin1_isalnum sample_web url = Ok info.
Proof.
  intros [->|[->|[]%elem_of_nil]%elem_of_cons]%elem_of_cons;
    eexists; vm_compute; reflexivity.
Defined.

(** The statement of C2 on the sample artist. *)
Lemma aggregate_length_and_order_witness :
  ∃ data,
    get_artist_songs latin1_isalnum sample_web sample_artist = Ok data
    ∧ length data = 2
    ∧ (∀ (i : nat) (url : option py_str),
         [Some sample_one; Some sample_two] !! i = Some url →
         ∃ info, get_song_info latin1_isalnum sample_web url = Ok info
                 ∧ data !! i = Some info)
    ∧ (∀ sched : list nat,
         sched ≡ₚ [0; 1] →
         executor_map (get_song_info latin1_isalnum sample_web)
           [Some sample_one; Some sample_two] sched = Some (Ok data)).
Proof.
  apply (aggregate_length_and_order latin1_isalnum sample_web sample_artist
           [Some sample_one; Some sample_two]).
  - vm_compute. reflexivity.
  - apply sample_songs_all_succeed.
Defined.

(** The statement of C1 when the second task completes first. *)
Lemma aggregators_agree_witness :
  ∃ songs_info,
    comprehension (get_song_info latin1_isalnum sample_web)
      [Some sample_one; Some sample_two] = Ok songs_info
    ∧ executor_map (get_song_info latin1_isalnum sample_web)
        [Some sample_one; Some sample_two] [1; 0] = Some (Ok songs_info)
    ∧ (∀ (artist_url output_name : py_str) (files : gmap py_str py_str),
         get_songs_list sample_web artist_url = Ok [Some sample_one; Some sample_two] →
         scrap_songs_threading latin1_isalnum sample_web json_dumps (λ _, true)
           [1; 0] artist_url output_name files
         = Some (scrap_songs_concurrently latin1_isalnum sample_web json_dumps
                   (λ _, true) artist_url output_name files)).
Proof.
  apply (aggregators_agree latin1_isalnum sample_web json_dumps (λ _, true)
           [Some sample_one; Some sample_two] [1; 0]).
  - discriminate.
  - apply sample_songs_all_succeed.
  - apply perm_swap.
Defined.

(** The statement of C3: the sample artist is exported over the earlier
    output; the listing with a missing URL leaves the files as they were. *)
Lemma export_all_or_nothing_witness :
  (∃ songs_info : list dict,
     comprehension (get_song_info latin1_isalnum sample_web)
       [Some sample_one; Some sample_two] = Ok songs_info
     ∧ Forall (λ info : dict, info.*1 = [lit "name"; lit "lyrics"; lit "url"])
         songs_info
     ∧ scrap_songs_concurrently latin1_isalnum sample_web json_dumps (λ _, true)
         sample_artist (lit "out") sample_files
       = (Ok 2, <[lit "out" ++ lit ".json" := json_dumps songs_info 4]> sample_files)
     ∧ (∀ sched : list nat,
          sched ≡ₚ [0; 1] →
          scrap_songs_threading latin1_isalnum sample_web json_dumps (λ _, true)
            sched sample_artist (lit "out") sample_files
          = Some (Ok 2, <[lit "out" ++ lit ".json" := json_dumps songs_info 4]> sample_files)))
  ∧ (∃ e : exn,
       scrap_songs_concurrently latin1_isalnum sample_web json_dumps (λ _, true)
         gaps_artist (lit "out") sample_files
       = (Raise e, sample_files)
       ∧ (∀ sched : list nat,
            sched ≡ₚ [0; 1; 2] →
            scrap_songs_threading latin1_isalnum sample_web json_dumps (λ _, true)
              sched gaps_artist (lit "out") sample_files
            = Some (Raise e, sample_files))).
Proof.
  split.
  - apply (proj1 (export_all_or_nothing latin1_isalnum sample_web json_dumps
                    (λ _, true) sample_artist (lit "out") sample_files)
             [Some sample_one; Some sample_two]).
    + vm_compute. reflexivity.
    + apply sample_songs_all_succeed.
    + reflexivity.
  - apply (proj2 (proj2 (export_all_or_nothing latin1_isalnum sample_web json_dumps
                           (λ _, true) gaps_artist (lit "out") sample_files))
             [Some sample_one; None; Some untitled_song] None RequestException).
    + vm_compute. reflexivity.
    + apply elem_of_cons. right. apply elem_of_cons. by left.
    + reflexivity.
Defined.


(** ** The further statements on the sample data *)

(** The statement of X1 at the W of the second sample song. *)
Lemma flattened_no_camel_witness : is_word latin1_isalnum SP = false.
Proof.
  apply (flattened_no_camel latin1_isalnum
           [P_tag (lit "HelloWorld") (lit "<p>Hello<br/>World</p>")]
           (lit "Hello World ") 5 SP 87%N); reflexivity.
Defined.

(** The statement of X2 on the fragment of two paragraphs. *)
Lemma flattened_keeps_non_spaces_witness :
  filter (λ c, c ≠ SP) (lit "Line onecont. Line two ")
  = concat (map (λ p, filter (λ c, c ≠ SP) (p_text p)) two_paragraphs).
Proof.
  apply (flattened_keeps_non_spaces latin1_isalnum two_paragraphs). reflexivity.
Defined.

(** The statement of X3 on the fragment of two paragraphs. *)
Lemma flattened_idempotent_witness :
  get_lyrics_from_div latin1_isalnum
    (Some [P_tag (lit "Line onecont. Line two ") []]) false
  = Ok (lit "Line onecont. Line two ").
Proof.
  apply (flattened_idempotent latin1_isalnum two_paragraphs).
  - discriminate.
  - reflexivity.
Defined.

(** The statement of X5 on the page of the first sample song. *)
Lemma url_variant_agrees_witness :
  get_lyrics_from_url latin1_isalnum sample_web (Some sample_one) true
  = get_lyrics_from_div latin1_isalnum (Some two_paragraphs) true
  ∧ (Some two_paragraphs = None ∨ Some two_paragraphs = Some [] →
     get_lyrics_from_url latin1_isalnum sample_web (Some sample_one) false
     = get_lyrics_from_div latin1_isalnum (Some two_paragraphs) false).
Proof.
  apply (url_variant_agrees latin1_isalnum sample_web (Some sample_one)
           (Soup [] (Some (Some (lit "One"))) (Some two_paragraphs))).
  vm_compute. reflexivity.
Defined.

(** The statement of X7: the second of three URLs is [None], and the
    task of the third never completes. *)
Lemma first_failure_is_raised_witness :
  comprehension (get_song_info latin1_isalnum sample_web)
    ([Some sample_one] ++ None :: [Some untitled_song])
  = Raise RequestException
  ∧ (∀ sched : list nat,
       (∀ i : nat, i ≤ 1 → i ∈ sched) →
       executor_map (get_song_info latin1_isalnum sample_web)
         ([Some sample_one] ++ None :: [Some untitled_song]) sched
       = Some (Raise RequestException)).
Proof.
  apply (first_failure_is_raised latin1_isalnum sample_web
           [Some sample_one] None [Some untitled_song] RequestException).
  - intros u [->|[]%elem_of_nil]%elem_of_cons. eexists. vm_compute. reflexivity.
  - reflexivity.
Defined.

(** The statement of X8 when only the first task completes and raises. *)
Lemma pool_gives_comprehension_witness :
  Raise (AttributeError "find")
  = comprehension (get_song_info latin1_isalnum sample_web)
      [Some untitled_song; Some sample_one]
  ∧ (∀ songs_info : list dict,
       Raise (AttributeError "find") = Ok songs_info →
       length songs_info = 2).
Proof.
  apply (pool_gives_comprehension latin1_isalnum sample_web
           [Some untitled_song; Some sample_one] [0]).
  vm_compute. reflexivity.
Defined.

(** The statement of X9 on the sample artist when the second task
    completes first. *)
Lemma threading_refines_concurrently_witness :
  scrap_songs_threading latin1_isalnum sample_web json_dumps (λ _, true)
    [1; 0] sample_artist (lit "out") sample_files
  = Some (scrap_songs_concurrently latin1_isalnum sample_web json_dumps (λ _, true)
            sample_artist (lit "out") sample_files).
Proof.
  apply (proj2 (proj2 (threading_refines_concurrently latin1_isalnum sample_web
                         json_dumps (λ _, true) [1; 0] sample_artist (lit "out")
                         sample_files))
           [Some sample_one; Some sample_two]).
  - vm_compute. reflexivity.
  - intros i Hi. simpl in Hi.
    destruct i as [|[|i]]; [set_solver|set_solver|lia].
Defined.


(** The statement of X11 on the sample artist when no file can be opened. *)
Lemma export_open_fails_witness :
  scrap_songs_concurrently latin1_isalnum sample_web json_dumps (λ _, false)
    sample_artist (lit "out") sample_files
  = (Raise OSError, sample_files)
  ∧ (∀ sched : list nat,
       sched ≡ₚ [0; 1] →
       scrap_songs_threading latin1_isalnum sample_web json_dumps (λ _, false)
         sched sample_artist (lit "out") sample_files
       = Some (Raise OSError, sample_files)).
Proof.
  apply (export_open_fails latin1_isalnum sample_web json_dumps (λ _, false)
           sample_artist (lit "out") sample_files
           [Some sample_one; Some sample_two]).
  - vm_compute. reflexivity.
  - apply sample_songs_all_succeed.
  - reflexivity.
Defined.

(** The statement of X12 on the web without catalog rows. *)
Lemma export_empty_catalog_witness :
  get_artist_songs latin1_isalnum empty_web sample_artist = Ok []
  ∧ scrap_songs_concurrently latin1_isalnum empty_web json_dumps (λ _, true)
      sample_artist (lit "out") sample_files
    = (Ok 0, <[lit "out" ++ lit ".json" := json_dumps [] 4]> sample_files)
  ∧ (∀ sched : list nat,
       scrap_songs_threading latin1_isalnum empty_web json_dumps (λ _, true)
         sched sample_artist (lit "out") sample_files
       = Some (Ok 0, <[lit "out" ++ lit ".json" := json_dumps [] 4]> sample_files)).
Proof.
  apply (export_empty_catalog latin1_isalnum empty_web json_dumps (λ _, true)
           sample_artist (lit "out") sample_files (Soup [] None None));
    reflexivity.
Defined.

(** The statement of X13 on the listing whose second row has no URL. *)
Lemma missing_url_aborts_witness :
  ∃ e : exn,
    get_artist_songs latin1_isalnum sample_web gaps_artist = Raise e
    ∧ scrap_songs_concurrently latin1_isalnum sample_web json_dumps (λ _, true)
        gaps_artist (lit "out") sample_files
      = (Raise e, sample_files)
    ∧ (∀ sched : list nat,
         sched ≡ₚ [0; 1; 2] →
         scrap_songs_threading latin1_isalnum sample_web json_dumps (λ _, true)
           sched gaps_artist (lit "out") sample_files
         = Some (Raise e, sample_files)).
Proof.
  apply (missing_url_aborts latin1_isalnum sample_web json_dumps (λ _, true)
           gaps_artist (lit "out") sample_files
           (Soup [ {[ lit "data-shareurl" := sample_one ]};
                   {[ lit "data-id" := lit "7" ]};
                   {[ lit "data-shareurl" := untitled_song ]} ] None None)
           {[ lit "data-id" := lit "7" ]} RequestException).
  - vm_compute. reflexivity.
  - apply elem_of_cons. right. apply elem_of_cons. by left.
  - vm_compute. reflexivity.
  - reflexivity.
Defined.
